(** * The PRIME welcome broadcasts: Telegram and e-mail

    A shallow embedding of the two scripts
    [emails/broadcast-prime-welcome.py] (Telegram Bot API) and
    [emails/send-prime-welcome.py] (SMTP), and the properties of their
    recipient loader, template selection and dispatch loop.

    Conventions of the embedding.
    - A Python [str] read from the outside (psql output, an HTTP error
      body, an exception text) is a [list ascii]; an [ascii] stands for the
      code point of the same number, so the texts covered are those over the
      code points 0..255.  On these, [isspace] and [lower] below are Python's.
    - The constant texts of the scripts (message bodies, subjects, button
      labels) are kept as Rocq [string]s, i.e. as the UTF-8 bytes of the
      source file; they are only ever copied into a payload.
    - [json.loads] results are values of [json]; numbers are exact rationals
      (float rounding and overflow are not modelled).
    - The outside world is explicit: the psql output is an argument, the
      transport is a function from the number of calls made so far to the
      outcome of the next call, and every transport call and every
      [time.sleep] is appended to a trace.  [print] only writes progress
      lines and is not part of the state, except for the final report. *)

From Stdlib Require Import List String Ascii Bool Arith ZArith QArith Lia.
From Stdlib Require DecimalString.
Import ListNotations.

Set Implicit Arguments.
Local Open Scope nat_scope.

(** ** Python strings *)

Module Py.

Definition str := list ascii.

(** A literal of the source. *)
Definition lit (s : string) : str := list_ascii_of_string s.

Definition eqb (a b : str) : bool :=
  if list_eq_dec ascii_dec a b then true else false.

(** Truth value of a string: [if s:]. *)
Definition truthy (s : str) : bool :=
  match s with [] => false | _ :: _ => true end.

(** [c.isspace()] for a code point below 256. *)
Definition isspace (c : ascii) : bool :=
  let n := nat_of_ascii c in
  ((9 <=? n) && (n <=? 13)) || ((28 <=? n) && (n <=? 32))
  || (n =? 133) || (n =? 160).

Fixpoint lstrip (s : str) : str :=
  match s with
  | [] => []
  | c :: s' => if isspace c then lstrip s' else s
  end.

Definition rstrip (s : str) : str := rev (lstrip (rev s)).

(** [s.strip()] *)
Definition strip (s : str) : str := rstrip (lstrip s).

(** [s.split(sep)] for a separator of one character: always at least one
    part, one more than the number of separators. *)
Fixpoint split (sep : ascii) (s : str) : list str :=
  match s with
  | [] => [[]]
  | c :: s' =>
      if Ascii.eqb c sep then [] :: split sep s'
      else match split sep s' with
           | [] => [[c]]
           | p :: ps => (c :: p) :: ps
           end
  end.

Fixpoint startswith (p s : str) : bool :=
  match p, s with
  | [], _ => true
  | _ :: _, [] => false
  | a :: p', b :: s' => Ascii.eqb a b && startswith p' s'
  end.

(** [sub in s] *)
Fixpoint contains (sub s : str) : bool :=
  startswith sub s ||
  match s with
  | [] => false
  | _ :: s' => contains sub s'
  end.

(** [c.lower()] for a code point below 256: A-Z and the Latin-1 capitals
    (192..222 without the multiplication sign 215) move up by 32. *)
Definition lower_char (c : ascii) : ascii :=
  let n := nat_of_ascii c in
  if ((65 <=? n) && (n <=? 90))
     || ((192 <=? n) && (n <=? 222) && negb (n =? 215))
  then ascii_of_nat (n + 32) else c.

Definition lower (s : str) : str := map lower_char s.

(** The text of a decimal numeral. *)
Definition digits (d : Decimal.uint) : str :=
  lit (DecimalString.NilEmpty.string_of_uint d).

(** [str(n)] for a natural number. *)
Definition decimal (n : nat) : str := digits (Nat.to_uint n).

Definition LF : ascii := ascii_of_nat 10.
Definition PIPE : ascii := "|"%char.

End Py.

Import Py.

(** ** Values produced by [json.loads] *)

#[warnings="-register-all"]
Inductive json :=
| JNull
| JBool (b : bool)
| JNum (q : Q)
| JStr (s : str)
| JArr (items : list json)
| JObj (fields : list (str * json)).

(** [d.get(key, default)] on a dict given by the list of its items. *)
Fixpoint dict_get (fields : list (str * json)) (key : str) (default : json)
  : json :=
  match fields with
  | [] => default
  | (k, v) :: rest => if eqb k key then v else dict_get rest key default
  end.

(** ** What the scripts do to the outside world *)

(** A transport call with its request, the [time.sleep] of the rate-limit
    branch, and the [time.sleep] that closes a turn of the loop. *)
Inductive event (request : Type) :=
| Call (r : request)
| Backoff (secs : Q)
| Pace (secs : Q).

Arguments Backoff {request} secs.
Arguments Pace {request} secs.

Definition is_call {R} (e : event R) : bool :=
  match e with Call _ => true | _ => false end.

Definition is_pace {R} (e : event R) : bool :=
  match e with Pace _ => true | _ => false end.

Definition is_backoff {R} (e : event R) : bool :=
  match e with Backoff _ => true | _ => false end.

(** Number of transport calls in a trace. *)
Definition calls {R} (tr : list (event R)) : nat :=
  List.length (filter is_call tr).

(** An exception that no handler of the script catches. *)
Inductive uncaught := AttributeError | TypeError | ValueError.

Definition dq : string := String (ascii_of_nat 34) EmptyString.

(** What [subprocess.run(..., capture_output=True, text=True)] hands back.
    The scripts read [stdout] only. *)
Record completed_process := {
  returncode : Z;
  stdout : str;
  stderr : str
}.

(** ** Rows of the query output, in the words of the specification *)

(** A blank line. *)
Definition blank (line : str) : bool := negb (truthy (strip line)).

(** The pipe-separated fields of a line. *)
Definition fields (line : str) : list str := split PIPE line.

(** The [n]-th field, trimmed; empty when the line has no such field. *)
Definition field (n : nat) (line : str) : str := strip (nth n (fields line) []).

(** The lines of a text. *)
Definition lines (text : str) : list str := split LF text.

(** The records made by [mk] from the lines that [keep] accepts, in order. *)
Definition kept {A : Type} (keep : str -> bool) (mk : str -> A)
    (ls : list str) : list A :=
  map mk (filter keep ls).

(** ** The Telegram broadcast: [emails/broadcast-prime-welcome.py] *)

Module Telegram.

Definition MSG_EN : string :=
  ("🎬 <b>Your PNPtv! PRIME Account is Ready</b>

Welcome to <b>PNPtv!</b> — the private community platform built by and for the queer PNP community. Your PRIME membership is now active and all features are unlocked.

<b>What is PNPtv!?</b>
Your all-in-one platform for PNP content, live video rooms, raw podcasts, and real community connections. A private social network where you can watch, chat, discover people nearby, and connect — all in one place.

🎬 <b>PRIME Content</b> — Exclusive video library with curated PNP content
🔴 <b>Live Video Rooms</b> — Join or host live video sessions in real time
👥 <b>Hangout Groups</b> — Group chats with video call support
📍 <b>Nearby Discovery</b> — Find community members near you
💬 <b>Social Feed</b> — Post, like, comment &amp; share with the community
✉️ <b>Direct Messages</b> — Private messaging with any member

<b>Getting Started:</b>

1️⃣ Send /start to this bot to begin
2️⃣ Complete onboarding (age, guidelines, profile) — takes 2 min
3️⃣ Tap <b>" ++ dq ++ "Open App" ++ dq ++ "</b> below or visit <a href=" ++ dq ++ "https://pnptv.app" ++ dq ++ ">pnptv.app</a>
4️⃣ Explore PRIME content, hangouts, live rooms &amp; more!

<b>Your PRIME Perks:</b>
✅ Full access to the exclusive PRIME video library
✅ Create and join Hangout groups with video calls
✅ Host and watch live video streams
✅ Nearby discovery — find members in your area
✅ Post, like, comment &amp; share on the Social Feed
✅ Direct messaging with any community member
✅ Priority support

Need help? Type /help anytime or email support@pnptv.app")%string.

Definition MSG_ES : string :=
  ("🎬 <b>Tu Cuenta PRIME en PNPtv! Está Lista</b>

Bienvenido a <b>PNPtv!</b> — la plataforma privada de comunidad creada por y para la comunidad queer PNP. Tu membresía PRIME está activa y todas las funciones están desbloqueadas.

<b>¿Qué es PNPtv!?</b>
Tu plataforma todo-en-uno para contenido PNP, salas de video en vivo, podcasts crudos y conexiones reales con la comunidad. Una red social privada donde puedes ver, chatear, descubrir gente cerca y conectar — todo en un solo lugar.

🎬 <b>Contenido PRIME</b> — Biblioteca exclusiva de videos PNP curados
🔴 <b>Salas de Video en Vivo</b> — Únete o crea sesiones en tiempo real
👥 <b>Grupos de Hangout</b> — Chats grupales con videollamada
📍 <b>Descubre Gente Cerca</b> — Encuentra miembros cerca de ti
💬 <b>Feed Social</b> — Publica, dale like, comenta y comparte
✉️ <b>Mensajes Directos</b> — Mensajes privados con cualquier miembro

<b>Cómo Empezar:</b>

1️⃣ Envía /start a este bot para comenzar
2️⃣ Completa el registro (edad, normas, perfil) — toma 2 min
3️⃣ Toca <b>" ++ dq ++ "Abrir App" ++ dq ++ "</b> abajo o visita <a href=" ++ dq ++ "https://pnptv.app" ++ dq ++ ">pnptv.app</a>
4️⃣ Explora contenido PRIME, hangouts, salas en vivo y más!

<b>Tus Beneficios PRIME:</b>
✅ Acceso completo a la biblioteca exclusiva de videos PRIME
✅ Crea y únete a grupos de Hangout con videollamadas
✅ Transmite y mira streams de video en vivo
✅ Descubre gente cerca — encuentra miembros en tu zona
✅ Publica, dale like, comenta y comparte en el Feed Social
✅ Mensajes directos con cualquier miembro de la comunidad
✅ Soporte prioritario

¿Necesitas ayuda? Escribe /help en cualquier momento o envía un correo a support@pnptv.app")%string.

Inductive button :=
| WebApp (text url : string)
| CallbackData (text data : string).

Record markup := { inline_keyboard : list (list button) }.

Definition KEYBOARD_EN : markup :=
  {| inline_keyboard :=
       [ [WebApp "🚀 Open PNPtv! App" "https://pnptv.app"];
         [CallbackData "💬 Need Help? /help" "help_menu"] ] |}.

Definition KEYBOARD_ES : markup :=
  {| inline_keyboard :=
       [ [WebApp "🚀 Abrir PNPtv! App" "https://pnptv.app"];
         [CallbackData "💬 ¿Ayuda? /help" "help_menu"] ] |}.

(** *** Loader (lines 95-115) *)

Record user := { telegram : str; lang : str; username : str }.

(** One turn of the parse loop: [users] is the list built so far, the
    result is the list after the turn. *)
Definition parse_line (users : list user) (line : str) : list user :=
  if negb (truthy (strip line)) then users
  else
    let parts := split PIPE line in
    if 2 <=? List.length parts then
      let tg_id := strip (nth 0 parts []) in
      let lang := strip (nth 1 parts []) in
      let username :=
        if 2 <? List.length parts then strip (nth 2 parts []) else [] in
      if truthy tg_id
      then users ++ [{| telegram := tg_id; lang := lang;
                        username := username |}]
      else users
    else users.

Definition load (result : completed_process) : list user :=
  fold_left parse_line (split LF (strip (stdout result))) [].

(** The rows the loader keeps, in the words of the specification: not
    blank, at least two fields, a contact that is not empty. *)
Definition well_formed (line : str) : bool :=
  negb (blank line) && (2 <=? List.length (fields line))
  && truthy (field 0 line).

Definition record_of (line : str) : user :=
  {| telegram := field 0 line; lang := field 1 line;
     username := field 2 line |}.

(** *** Template selection (lines 131-134) *)

Definition is_es (lang : str) : bool := eqb lang (lit "es").

Definition message (lang : str) : string :=
  if is_es lang then MSG_ES else MSG_EN.

Definition keyboard (lang : str) : markup :=
  if is_es lang then KEYBOARD_ES else KEYBOARD_EN.

(** *** Request (lines 136-149) *)

Record payload := {
  chat_id : str;
  text : string;
  parse_mode : string;
  reply_markup : markup;
  disable_web_page_preview : bool
}.

(** The POST to [API_BASE + "/sendMessage"]. *)
Record request := {
  path : string;
  data : payload;
  content_type : string;
  method : string
}.

Definition build_request (u : user) : request :=
  {| path := "/sendMessage";
     data := {| chat_id := telegram u;
                text := message (lang u);
                parse_mode := "HTML";
                reply_markup := keyboard (lang u);
                disable_web_page_preview := true |};
     content_type := "application/json";
     method := "POST" |}.

(** *** Transport *)

(** An [urllib.error.HTTPError]: [str(e)], the decoded [e.read()], and
    [json.loads] of that body ([None] when it raises). *)
Record http_error := {
  he_str : str;
  he_body : str;
  he_json : option json
}.

(** How [urllib.request.urlopen(req, timeout=15)] ends: it returns, it
    raises an [HTTPError], or it raises another [Exception] [e] with
    [str(e) = msg]. *)
Inductive outcome :=
| Delivered
| HTTPError (e : http_error)
| OtherError (msg : str).

(** The outcomes of the successive calls, first call at index 0. *)
Definition transport := nat -> outcome.

(** *** Dispatch loop (lines 123-195) *)

Record failure := { tg_id : str; error : str }.

Record state := {
  sent : nat;
  failed : nat;
  blocked : nat;
  failures : list failure;
  trace : list (event request)
}.

Definition initial : state :=
  {| sent := 0; failed := 0; blocked := 0; failures := []; trace := [] |}.

Definition emit (e : event request) (st : state) : state :=
  {| sent := sent st; failed := failed st; blocked := blocked st;
     failures := failures st; trace := trace st ++ [e] |}.

Definition count_sent (st : state) : state :=
  {| sent := sent st + 1; failed := failed st; blocked := blocked st;
     failures := failures st; trace := trace st |}.

Definition count_blocked (st : state) : state :=
  {| sent := sent st; failed := failed st; blocked := blocked st + 1;
     failures := failures st; trace := trace st |}.

(** [failed += 1; failures.append({"tg_id": ..., "error": ...})] *)
Definition count_failed (id err : str) (st : state) : state :=
  {| sent := sent st; failed := failed st + 1; blocked := blocked st;
     failures := failures st ++ [{| tg_id := id; error := err |}];
     trace := trace st |}.

(** [urlopen(req, timeout=15)]: the next outcome of the transport, and the
    call recorded. *)
Definition urlopen (tr : transport) (req : request) (st : state)
  : outcome * state :=
  (tr (calls (trace st)), emit (Call req) st).

(** [desc] after lines 157-162. *)
Definition description (e : http_error) : json :=
  match he_json e with
  | Some (JObj fields) => dict_get fields (lit "description") (JStr [])
  | _ => JStr (he_body e)
  end.

(** [retry_after] after lines 168-172. *)
Definition retry_after (e : http_error) : json :=
  match he_json e with
  | Some (JObj fields) =>
      match dict_get fields (lit "parameters") (JObj []) with
      | JObj parameters => dict_get parameters (lit "retry_after") (JNum 5)
      | _ => JNum 1
      end
  | _ => JNum 1
  end.

(** [retry_after + 0.5]: defined on numbers and on booleans, a [TypeError]
    on anything else. *)
Definition plus_half (v : json) : option Q :=
  match v with
  | JNum q => Some (q + (1 # 2))%Q
  | JBool b => Some ((if b then 1 else 0) + (1 # 2))%Q
  | _ => None
  end.

(** The [except urllib.error.HTTPError as e:] handler (lines 157-187). *)
Definition on_http_error (tr : transport) (u : user) (req : request)
    (e : http_error) (st : state) : state * option uncaught :=
  match description e with
  | JStr desc =>
      if contains (lit "blocked") (lower desc)
         || contains (lit "deactivated") (lower desc)
      then (count_blocked st, None)
      else if contains (lit "Too Many Requests") desc then
        match plus_half (retry_after e) with
        | None => (st, Some TypeError)
        | Some secs =>
            if Qle_bool 0%Q secs then
              let (r, st') := urlopen tr req (emit (Backoff secs) st) in
              match r with
              | Delivered => (count_sent st', None)
              | HTTPError e2 =>
                  (count_failed (telegram u) (he_str e2) st', None)
              | OtherError msg => (count_failed (telegram u) msg st', None)
              end
            else (st, Some ValueError)
        end
      else (count_failed (telegram u) desc st, None)
  | _ => (st, Some AttributeError)
  end.

(** The [try] statement of one turn (lines 129-191). *)
Definition attempt (tr : transport) (u : user) (st : state)
  : state * option uncaught :=
  let req := build_request u in
  let (r, st') := urlopen tr req st in
  match r with
  | Delivered => (count_sent st', None)
  | HTTPError e => on_http_error tr u req e st'
  | OtherError msg => (count_failed (telegram u) msg st', None)
  end.

(** [for i, user in enumerate(users):] with [n = len(users)]; the turns
    from index [i] on.  An uncaught exception ends the script. *)
Fixpoint loop (tr : transport) (n i : nat) (us : list user) (st : state)
  : state * option uncaught :=
  match us with
  | [] => (st, None)
  | u :: rest =>
      match attempt tr u st with
      | (st', Some exn) => (st', Some exn)
      | (st', None) =>
          let st'' :=
            if (Z.of_nat i <? Z.of_nat n - 1)%Z
            then emit (Pace (2 # 25)) st' else st' in
          loop tr n (S i) rest st''
      end
  end.

Definition dispatch (tr : transport) (users : list user)
  : state * option uncaught :=
  loop tr (List.length users) 0 users initial.

(** *** Reporter (lines 117-119 and 197-202) *)

Inductive line :=
| Found (n english spanish : nat)
| Done (sent blocked failed : nat)
| FailedHeader
| FailedItem (tg_id error : str).

Definition announce (users : list user) : line :=
  Found (List.length users)
        (List.length (filter (fun u => negb (is_es (lang u))) users))
        (List.length (filter (fun u => is_es (lang u)) users)).

Definition report (st : state) : list line :=
  Done (sent st) (blocked st) (failed st) ::
  match failures st with
  | [] => []
  | _ :: _ =>
      FailedHeader
      :: map (fun f => FailedItem (tg_id f) (error f)) (failures st)
  end.

(** The whole script: the lines printed outside the loop, the final state,
    and the exception that ended it, if any. *)
Definition main (result : completed_process) (tr : transport)
  : list line * state * option uncaught :=
  let users := load result in
  match dispatch tr users with
  | (st, None) => (announce users :: report st, st, None)
  | (st, Some exn) => ([announce users], st, Some exn)
  end.

End Telegram.

(** ** The e-mail broadcast: [emails/send-prime-welcome.py] *)

Module Email.

Definition SMTP_USER : string := "hello@easybots.store".
Definition FROM_NAME : string := "PNPtv!".
Definition FROM_EMAIL : string := SMTP_USER.
Definition REPLY_TO : string := "support@pnptv.app".

Definition SUBJECT_EN : string :=
  ("Your PNPtv! PRIME Account is Ready")%string.

Definition SUBJECT_ES : string :=
  ("Tu Cuenta PRIME en PNPtv! Esta Lista")%string.

Definition PLAIN_EN : string :=
  ("Your PNPtv! PRIME Account is Ready

Welcome to PNPtv! Your PRIME membership is now active.

Getting Started:
1. Open Telegram and search for @PNPLatinoTV_bot
2. Send /start and complete onboarding
3. Tap " ++ dq ++ "Open App" ++ dq ++ " or visit https://pnptv.app
4. Explore PRIME content, live rooms, hangouts & more

Need help? Email support@pnptv.app or type /help in the bot.
")%string.

Definition PLAIN_ES : string :=
  ("Tu Cuenta PRIME en PNPtv! Esta Lista

Bienvenido a PNPtv! Tu membresia PRIME esta activa.

Como Empezar:
1. Abre Telegram y busca @PNPLatinoTV_bot
2. Envia /start y completa el registro
3. Toca " ++ dq ++ "Abrir App" ++ dq ++ " o visita https://pnptv.app
4. Explora contenido PRIME, salas en vivo, hangouts y mas

Necesitas ayuda? Escribe a support@pnptv.app o envia /help al bot.
")%string.

(** *** Loader (lines 58-78) *)

Record user := { email : str; lang : str; username : str }.

Definition parse_line (users : list user) (line : str) : list user :=
  if negb (truthy (strip line)) then users
  else
    let parts := split PIPE line in
    if 2 <=? List.length parts then
      let email := strip (nth 0 parts []) in
      let lang := strip (nth 1 parts []) in
      let username :=
        if 2 <? List.length parts then strip (nth 2 parts []) else [] in
      if truthy email && contains (lit "@") email
      then users ++ [{| email := email; lang := lang; username := username |}]
      else users
    else users.

Definition load (result : completed_process) : list user :=
  fold_left parse_line (split LF (strip (stdout result))) [].

(** The rows the loader keeps, in the words of the specification: not
    blank, at least two fields, a contact that is not empty and has an
    at sign. *)
Definition well_formed (line : str) : bool :=
  negb (blank line) && (2 <=? List.length (fields line))
  && truthy (field 0 line) && contains (lit "@") (field 0 line).

Definition record_of (line : str) : user :=
  {| email := field 0 line; lang := field 1 line; username := field 2 line |}.

Definition is_es (lang : str) : bool := eqb lang (lit "es").

(** *** Transport *)

(** How [server.sendmail(...)] ends: it returns, or it raises an
    [Exception] [e] with [str(e) = msg]. *)
Inductive outcome :=
| Accepted
| Raised (msg : str).

(** The SMTP server as the script meets it: the exception raised while
    opening the session ([SMTP_SSL(...)] and [login]), if any; the outcomes
    of the successive [sendmail] calls; the exception raised by [quit], if
    any. *)
Record smtp := {
  login_error : option str;
  sendmail : nat -> outcome;
  quit_error : option str
}.

(** The headers and the two parts of the multipart message. *)
Record message := {
  Subject : string;
  From : string;
  To : str;
  Reply_To : string;
  plain_part : string;
  html_part : string
}.

(** The arguments of [server.sendmail(FROM_EMAIL, email, msg.as_string())]. *)
Record envelope := {
  from_addr : string;
  to_addr : str;
  msg : message
}.

Record failure := { address : str; error : str }.

Record state := {
  sent : nat;
  failed : nat;
  failures : list failure;
  trace : list (event envelope)
}.

Definition initial : state :=
  {| sent := 0; failed := 0; failures := []; trace := [] |}.

Definition emit (e : event envelope) (st : state) : state :=
  {| sent := sent st; failed := failed st; failures := failures st;
     trace := trace st ++ [e] |}.

Definition count_sent (st : state) : state :=
  {| sent := sent st + 1; failed := failed st; failures := failures st;
     trace := trace st |}.

Definition count_failed (addr err : str) (st : state) : state :=
  {| sent := sent st; failed := failed st + 1;
     failures := failures st ++ [{| address := addr; error := err |}];
     trace := trace st |}.

Inductive line :=
| Found (n english spanish : nat)
| Done (sent failed : nat)
| FailedHeader
| FailedItem (address error : str).

Definition announce (users : list user) : line :=
  Found (List.length users)
        (List.length (filter (fun u => negb (is_es (lang u))) users))
        (List.length (filter (fun u => is_es (lang u)) users)).

Definition report (st : state) : list line :=
  Done (sent st) (failed st) ::
  match failures st with
  | [] => []
  | _ :: _ =>
      FailedHeader
      :: map (fun f => FailedItem (address f) (error f)) (failures st)
  end.

Section Templates.

(** The contents of [prime-welcome.html] and [prime-welcome-es.html], read
    when the script starts (lines 51-55). *)
Variables HTML_EN HTML_ES : string.

(** *** Template selection (lines 98-101) *)

Definition subject (lang : str) : string :=
  if is_es lang then SUBJECT_ES else SUBJECT_EN.

Definition html (lang : str) : string :=
  if is_es lang then HTML_ES else HTML_EN.

Definition plain (lang : str) : string :=
  if is_es lang then PLAIN_ES else PLAIN_EN.

(** *** Message (lines 103-109) *)

Definition build_message (u : user) : message :=
  {| Subject := subject (lang u);
     From := (FROM_NAME ++ " <" ++ FROM_EMAIL ++ ">")%string;
     To := email u;
     Reply_To := REPLY_TO;
     plain_part := plain (lang u);
     html_part := html (lang u) |}.

(** *** Dispatch loop (lines 90-123) *)

Definition build_envelope (u : user) : envelope :=
  {| from_addr := FROM_EMAIL; to_addr := email u; msg := build_message u |}.

(** The [try] statement of one turn (lines 111-119). *)
Definition attempt (server : smtp) (u : user) (st : state) : state :=
  let r := sendmail server (calls (trace st)) in
  let st' := emit (Call (build_envelope u)) st in
  match r with
  | Accepted => count_sent st'
  | Raised msg => count_failed (email u) msg st'
  end.

(** [for i, user in enumerate(users):] with [n = len(users)]; the turns
    from index [i] on. *)
Fixpoint loop (server : smtp) (n i : nat) (us : list user) (st : state)
  : state :=
  match us with
  | [] => st
  | u :: rest =>
      let st' := attempt server u st in
      let st'' :=
        if (Z.of_nat i <? Z.of_nat n - 1)%Z
        then emit (Pace (1 # 2)) st' else st' in
      loop server n (S i) rest st''
  end.

Definition dispatch (server : smtp) (users : list user) : state :=
  loop server (List.length users) 0 users initial.

(** The whole script from the query on: the lines printed outside the loop,
    the final state, and the exception that ended it, if any.  Nothing
    catches an exception of the session set-up (lines 86-88) or of
    [server.quit()] (line 125). *)
Definition main (result : completed_process) (server : smtp)
  : list line * state * option str :=
  let users := load result in
  match login_error server with
  | Some exn => ([announce users], initial, Some exn)
  | None =>
      let st := dispatch server users in
      match quit_error server with
      | Some exn => ([announce users], st, Some exn)
      | None => (announce users :: report st, st, None)
      end
  end.

End Templates.

End Email.

(** ** Vocabulary of the specification *)

(** The outcome of one recipient (the specification's DispatchOutcome). *)
Inductive verdict :=
| Sent
| Blocked
| Failed (reason : str).

Definition is_Sent (v : verdict) : bool :=
  match v with Sent => true | _ => false end.

Definition is_Blocked (v : verdict) : bool :=
  match v with Blocked => true | _ => false end.

Definition is_Failed (v : verdict) : bool :=
  match v with Failed _ => true | _ => false end.

Definition tally (p : verdict -> bool) (vs : list verdict) : nat :=
  List.length (filter p vs).

(** The events of one recipient's turn: one call, or a call, the backoff
    and a second call with the same request. *)
Definition one_turn {R} (req : R) (seg : list (event R)) : Prop :=
  seg = [Call req] \/ exists secs, seg = [Call req; Backoff secs; Call req].

(** The turns of the recipients with a pause of [d] between two of them. *)
Fixpoint paced {R} (d : Q) (segs : list (list (event R))) : list (event R) :=
  match segs with
  | [] => []
  | seg :: rest =>
      match rest with
      | [] => seg
      | _ :: _ => seg ++ Pace d :: paced d rest
      end
  end.

(** The failure entries owed to recipients with their verdicts: one for
    each [Failed], none for the others. *)
Definition tg_entries (uvs : list (Telegram.user * verdict))
  : list Telegram.failure :=
  flat_map (fun uv =>
              match snd uv with
              | Failed reason =>
                  [{| Telegram.tg_id := Telegram.telegram (fst uv);
                      Telegram.error := reason |}]
              | _ => []
              end) uvs.

Definition em_entries (uvs : list (Email.user * verdict))
  : list Email.failure :=
  flat_map (fun uv =>
              match snd uv with
              | Failed reason =>
                  [{| Email.address := Email.email (fst uv);
                      Email.error := reason |}]
              | _ => []
              end) uvs.

(** The verdict of a [sendmail] outcome. *)
Definition em_verdict (o : Email.outcome) : verdict :=
  match o with
  | Email.Accepted => Sent
  | Email.Raised msg => Failed msg
  end.

(** What a verdict does to the Telegram counters and failure list. *)
Definition tg_booked (u : Telegram.user) (v : verdict)
    (st st' : Telegram.state) : Prop :=
  match v with
  | Sent =>
      Telegram.sent st' = Telegram.sent st + 1
      /\ Telegram.blocked st' = Telegram.blocked st
      /\ Telegram.failed st' = Telegram.failed st
      /\ Telegram.failures st' = Telegram.failures st
  | Blocked =>
      Telegram.sent st' = Telegram.sent st
      /\ Telegram.blocked st' = Telegram.blocked st + 1
      /\ Telegram.failed st' = Telegram.failed st
      /\ Telegram.failures st' = Telegram.failures st
  | Failed reason =>
      Telegram.sent st' = Telegram.sent st
      /\ Telegram.blocked st' = Telegram.blocked st
      /\ Telegram.failed st' = Telegram.failed st + 1
      /\ Telegram.failures st' =
         Telegram.failures st
         ++ [{| Telegram.tg_id := Telegram.telegram u;
                Telegram.error := reason |}]
  end.

(** The counters and the failure list did not move. *)
Definition tg_untouched (st st' : Telegram.state) : Prop :=
  Telegram.sent st' = Telegram.sent st
  /\ Telegram.blocked st' = Telegram.blocked st
  /\ Telegram.failed st' = Telegram.failed st
  /\ Telegram.failures st' = Telegram.failures st.

(** An error that says the recipient cannot be reached: its description
    contains "blocked" or "deactivated". *)
Definition tg_unreachable (e : Telegram.http_error) : Prop :=
  exists desc,
    Telegram.description e = JStr desc
    /\ (contains (lit "blocked") desc = true
        \/ contains (lit "deactivated") desc = true).

(** A rate-limit error carrying the retry delay [r]: the description has
    "Too Many Requests", does not make the recipient unreachable (that
    class comes first), and [retry_after] is the number [r]. *)
Definition tg_rate_limited (e : Telegram.http_error) (r : Q) : Prop :=
  exists desc,
    Telegram.description e = JStr desc
    /\ contains (lit "blocked") (lower desc) = false
    /\ contains (lit "deactivated") (lower desc) = false
    /\ contains (lit "Too Many Requests") desc = true
    /\ Telegram.retry_after e = JNum r.

(** An error body the Bot API contract allows: not JSON at all, or with a
    text as description and, when the script takes it for a rate limit, a
    retry delay that is a number and not negative. *)
Definition tg_expected (e : Telegram.http_error) : Prop :=
  exists desc,
    Telegram.description e = JStr desc
    /\ (contains (lit "blocked") (lower desc)
        || contains (lit "deactivated") (lower desc) = false ->
        contains (lit "Too Many Requests") desc = true ->
        exists secs,
          Telegram.plus_half (Telegram.retry_after e) = Some secs
          /\ (0 <= secs)%Q).

(** ** Sample data *)

Module Sample.

(** A JSON key or text with its quotes. *)
Definition q (s : string) : string := (dq ++ s ++ dq)%string.

Definition ana : Telegram.user :=
  {| Telegram.telegram := lit "1"; Telegram.lang := lit "es";
     Telegram.username := lit "ana" |}.

Definition bob : Telegram.user :=
  {| Telegram.telegram := lit "2"; Telegram.lang := lit "en";
     Telegram.username := lit "bob" |}.

Definition cy : Telegram.user :=
  {| Telegram.telegram := lit "3"; Telegram.lang := [];
     Telegram.username := [] |}.

(** The Bot API's answer for a user who blocked the bot. *)
Definition bot_blocked : Telegram.http_error :=
  {| Telegram.he_str := lit "HTTP Error 403: Forbidden";
     Telegram.he_body :=
       lit ("{" ++ q "ok" ++ ":false," ++ q "error_code" ++ ":403,"
            ++ q "description" ++ ":"
            ++ q "Forbidden: bot was blocked by the user" ++ "}");
     Telegram.he_json :=
       Some (JObj [ (lit "ok", JBool false);
                    (lit "error_code", JNum 403);
                    (lit "description",
                     JStr (lit "Forbidden: bot was blocked by the user")) ]) |}.

(** The Bot API's answer for a deleted account. *)
Definition user_deactivated : Telegram.http_error :=
  {| Telegram.he_str := lit "HTTP Error 403: Forbidden";
     Telegram.he_body :=
       lit ("{" ++ q "ok" ++ ":false," ++ q "error_code" ++ ":403,"
            ++ q "description" ++ ":"
            ++ q "Forbidden: user is deactivated" ++ "}");
     Telegram.he_json :=
       Some (JObj [ (lit "ok", JBool false);
                    (lit "error_code", JNum 403);
                    (lit "description",
                     JStr (lit "Forbidden: user is deactivated")) ]) |}.

(** The Bot API's rate-limit answer asking for [n] seconds. *)
Definition flood (n : nat) : Telegram.http_error :=
  {| Telegram.he_str := lit "HTTP Error 429: Too Many Requests";
     Telegram.he_body :=
       lit ("{" ++ q "ok" ++ ":false," ++ q "error_code" ++ ":429,"
            ++ q "description" ++ ":" ++ dq
            ++ "Too Many Requests: retry after ")
       ++ decimal n
       ++ lit (dq ++ "," ++ q "parameters" ++ ":{" ++ q "retry_after" ++ ":")
       ++ decimal n ++ lit "}}";
     Telegram.he_json :=
       Some (JObj [ (lit "ok", JBool false);
                    (lit "error_code", JNum 429);
                    (lit "description",
                     JStr (lit "Too Many Requests: retry after "
                           ++ decimal n));
                    (lit "parameters",
                     JObj [ (lit "retry_after",
                             JNum (inject_Z (Z.of_nat n))) ]) ]) |}.

Definition flood_3 : Telegram.http_error := flood 3.

(** A gateway's answer that is not JSON. *)
Definition bad_gateway : Telegram.http_error :=
  {| Telegram.he_str := lit "HTTP Error 502: Bad Gateway";
     Telegram.he_body := lit "<html><h1>502 Bad Gateway</h1></html>";
     Telegram.he_json := None |}.

(** An error body whose description is null. *)
Definition null_description : Telegram.http_error :=
  {| Telegram.he_str := lit "HTTP Error 400: Bad Request";
     Telegram.he_body :=
       lit ("{" ++ q "ok" ++ ":false," ++ q "error_code" ++ ":400,"
            ++ q "description" ++ ":null}");
     Telegram.he_json :=
       Some (JObj [ (lit "ok", JBool false);
                    (lit "error_code", JNum 400);
                    (lit "description", JNull) ]) |}.

(** A rate-limit body whose retry delay is a text. *)
Definition flood_text : Telegram.http_error :=
  {| Telegram.he_str := lit "HTTP Error 429: Too Many Requests";
     Telegram.he_body :=
       lit ("{" ++ q "description" ++ ":" ++ q "Too Many Requests" ++ ","
            ++ q "parameters" ++ ":{" ++ q "retry_after" ++ ":"
            ++ q "3" ++ "}}");
     Telegram.he_json :=
       Some (JObj [ (lit "description", JStr (lit "Too Many Requests"));
                    (lit "parameters",
                     JObj [ (lit "retry_after", JStr (lit "3")) ]) ]) |}.

(** The outcomes of the successive calls as a list; calls beyond it are
    delivered. *)
Definition script (os : list Telegram.outcome) : Telegram.transport :=
  fun k => nth k os Telegram.Delivered.

(** Stand-ins for the two HTML files. *)
Definition html_en : string := "<p>Welcome</p>".
Definition html_es : string := "<p>Bienvenido</p>".

Definition eve : Email.user :=
  {| Email.email := lit "eve@example.org"; Email.lang := lit "es";
     Email.username := lit "eve" |}.

Definition dan : Email.user :=
  {| Email.email := lit "dan@example.org"; Email.lang := lit "en";
     Email.username := [] |}.

(** An SMTP session that opens and closes normally and answers the
    successive [sendmail] calls by the list; calls beyond it are accepted. *)
Definition session (os : list Email.outcome) : Email.smtp :=
  {| Email.login_error := None;
     Email.sendmail := fun k => nth k os Email.Accepted;
     Email.quit_error := None |}.

(** A rate-limit answer that also says the sender is blocked. *)
Definition blocked_flood : Telegram.http_error :=
  {| Telegram.he_str := lit "HTTP Error 429: Too Many Requests";
     Telegram.he_body :=
       lit ("{" ++ q "description" ++ ":"
            ++ q "Too Many Requests: sender BLOCKED for flooding" ++ ","
            ++ q "parameters" ++ ":{" ++ q "retry_after" ++ ":30}}");
     Telegram.he_json :=
       Some (JObj [ (lit "description",
                     JStr
                       (lit "Too Many Requests: sender BLOCKED for flooding"));
                    (lit "parameters",
                     JObj [ (lit "retry_after", JNum 30) ]) ]) |}.

(** A rate-limit answer that names no delay. *)
Definition flood_bare : Telegram.http_error :=
  {| Telegram.he_str := lit "HTTP Error 429: Too Many Requests";
     Telegram.he_body :=
       lit ("{" ++ q "ok" ++ ":false," ++ q "description" ++ ":"
            ++ q "Too Many Requests" ++ "}");
     Telegram.he_json :=
       Some (JObj [ (lit "ok", JBool false);
                    (lit "description", JStr (lit "Too Many Requests")) ]) |}.

(** A gateway's rate-limit page, not JSON. *)
Definition flood_page : Telegram.http_error :=
  {| Telegram.he_str := lit "HTTP Error 429: Too Many Requests";
     Telegram.he_body := lit "<html><h1>429 Too Many Requests</h1></html>";
     Telegram.he_json := None |}.

(** A JSON error body without a description. *)
Definition no_description : Telegram.http_error :=
  {| Telegram.he_str := lit "HTTP Error 500: Internal Server Error";
     Telegram.he_body := lit ("{" ++ q "error" ++ ":" ++ q "upstream" ++ "}");
     Telegram.he_json :=
       Some (JObj [ (lit "error", JStr (lit "upstream")) ]) |}.

(** A query output of three rows. *)
Definition listing : completed_process :=
  {| returncode := 0;
     stdout := lit "7|es|ana
eve@example.org | en
 9 |ES| bo |x
";
     stderr := [] |}.

(** A second query output. *)
Definition more_rows : completed_process :=
  {| returncode := 0; stdout := lit "12|es|cy
|en|nobody"; stderr := [] |}.

(** The two outputs one after the other. *)
Definition both_listings : completed_process :=
  {| returncode := 0;
     stdout := stdout listing ++ LF :: stdout more_rows;
     stderr := [] |}.

End Sample.

(** * Properties *)

(** ** Python strings *)

Section PyFacts.

Lemma eqb_eq (a b : str) : eqb a b = true <-> a = b.
Proof.
  unfold eqb. destruct (list_eq_dec ascii_dec a b); split; congruence.
Qed.

Lemma eqb_neq (a b : str) : eqb a b = false <-> a <> b.
Proof.
  unfold eqb. destruct (list_eq_dec ascii_dec a b); split; congruence.
Qed.

Lemma truthy_false (s : str) : truthy s = false <-> s = [].
Proof. destruct s; simpl; split; congruence. Qed.

Lemma split_not_nil (c : ascii) (s : str) : split c s <> [].
Proof.
  induction s as [|x s IH]; simpl; [discriminate|].
  destruct (Ascii.eqb x c); [discriminate|].
  destruct (split c s); discriminate.
Qed.

(** A split has one part more than there are separators. *)
Lemma split_length (c : ascii) (s : str) :
  List.length (split c s) = S (count_occ ascii_dec s c).
Proof.
  induction s as [|x s IH]; simpl; [reflexivity|].
  destruct (Ascii.eqb_spec x c) as [->|Hne].
  - destruct (ascii_dec c c); [|congruence]. simpl. now rewrite IH.
  - destruct (ascii_dec x c); [congruence|].
    destruct (split c s) eqn:E; simpl in *; [discriminate|exact IH].
Qed.

Lemma count_occ_lstrip (c : ascii) (s : str) :
  count_occ ascii_dec (lstrip s) c <= count_occ ascii_dec s c.
Proof.
  induction s as [|x s IH]; simpl; [lia|].
  destruct (isspace x); simpl.
  - destruct (ascii_dec x c); lia.
  - lia.
Qed.

Lemma count_occ_rstrip (c : ascii) (s : str) :
  count_occ ascii_dec (rstrip s) c <= count_occ ascii_dec s c.
Proof.
  unfold rstrip. rewrite count_occ_rev.
  etransitivity; [apply count_occ_lstrip|]. now rewrite count_occ_rev.
Qed.

(** Trimming a text never adds a line. *)
Lemma lines_strip_le (text : str) :
  List.length (lines (strip text)) <= List.length (lines text).
Proof.
  unfold lines, strip. rewrite !split_length.
  apply le_n_S. etransitivity; [apply count_occ_rstrip|apply count_occ_lstrip].
Qed.

(** *** Trimming *)

Lemma lstrip_idem (s : str) : lstrip (lstrip s) = lstrip s.
Proof.
  induction s as [|x s IH]; simpl; [reflexivity|].
  destruct (isspace x) eqn:E; [exact IH|]. simpl. now rewrite E.
Qed.

Lemma lstrip_snoc (a : str) (c : ascii) :
  lstrip (a ++ [c]) =
  match lstrip a with
  | [] => if isspace c then [] else [c]
  | _ :: _ => lstrip a ++ [c]
  end.
Proof.
  induction a as [|x a IH]; simpl.
  - destruct (isspace c); reflexivity.
  - destruct (isspace x); [exact IH|reflexivity].
Qed.

Lemma rstrip_cons (c : ascii) (t : str) :
  rstrip (c :: t) =
  match rstrip t with
  | [] => if isspace c then [] else [c]
  | _ :: _ => c :: rstrip t
  end.
Proof.
  unfold rstrip. simpl. rewrite lstrip_snoc.
  destruct (lstrip (rev t)) as [|y l] eqn:E; simpl.
  - destruct (isspace c); reflexivity.
  - rewrite rev_app_distr. simpl.
    destruct (rev l ++ [y]) eqn:E'; [|reflexivity].
    now destruct (rev l).
Qed.

Lemma rstrip_nil : rstrip [] = [].
Proof. reflexivity. Qed.

Lemma rstrip_rev (s : str) : rstrip (rev s) = rev (lstrip s).
Proof. unfold rstrip. now rewrite rev_involutive. Qed.

Lemma lstrip_rev (s : str) : lstrip (rev s) = rev (rstrip s).
Proof. unfold rstrip. now rewrite rev_involutive. Qed.

Lemma rstrip_idem (s : str) : rstrip (rstrip s) = rstrip s.
Proof.
  unfold rstrip. now rewrite rev_involutive, lstrip_idem.
Qed.

(** The two trims commute. *)
Lemma lstrip_rstrip (s : str) : lstrip (rstrip s) = rstrip (lstrip s).
Proof.
  induction s as [|x s IH]; [reflexivity|].
  rewrite rstrip_cons. simpl. destruct (isspace x) eqn:E.
  - rewrite <- IH. destruct (rstrip s); simpl; [reflexivity|now rewrite E].
  - rewrite rstrip_cons, E.
    destruct (rstrip s); simpl; now rewrite E.
Qed.

Lemma strip_lstrip (s : str) : strip (lstrip s) = strip s.
Proof. unfold strip. now rewrite lstrip_idem. Qed.

Lemma strip_rstrip (s : str) : strip (rstrip s) = strip s.
Proof. unfold strip. now rewrite lstrip_rstrip, rstrip_idem. Qed.

Lemma strip_idem (s : str) : strip (strip s) = strip s.
Proof. unfold strip at 2. now rewrite strip_rstrip, strip_lstrip. Qed.

Lemma strip_space_cons (c : ascii) (s : str) :
  isspace c = true -> strip (c :: s) = strip s.
Proof. intros E. unfold strip. simpl. now rewrite E. Qed.

(** *** Splitting *)

Lemma split_cons_sep (c : ascii) (s : str) :
  split c (c :: s) = [] :: split c s.
Proof. simpl. now rewrite Ascii.eqb_refl. Qed.

Lemma split_cons_other (c x : ascii) (s : str) :
  x <> c ->
  split c (x :: s) = (x :: hd [] (split c s)) :: tl (split c s).
Proof.
  intros Hne. simpl. destruct (Ascii.eqb_spec x c); [congruence|].
  destruct (split c s) eqn:E; [now apply split_not_nil in E|reflexivity].
Qed.

Lemma split_snoc_sep (c : ascii) (s : str) :
  split c (s ++ [c]) = split c s ++ [[]].
Proof.
  induction s as [|x s IH].
  - simpl. now rewrite Ascii.eqb_refl.
  - destruct (ascii_dec x c) as [->|Hne].
    + change ((c :: s) ++ [c]) with (c :: (s ++ [c])).
      rewrite !split_cons_sep, IH. reflexivity.
    + change ((x :: s) ++ [c]) with (x :: (s ++ [c])).
      rewrite !split_cons_other, IH by assumption.
      destruct (split c s) eqn:E; [now apply split_not_nil in E|reflexivity].
Qed.

Lemma split_snoc_other (c x : ascii) (s : str) :
  x <> c ->
  split c (s ++ [x]) =
  removelast (split c s) ++ [last (split c s) [] ++ [x]].
Proof.
  intros Hne. induction s as [|y s IH].
  - simpl. destruct (Ascii.eqb_spec x c); [congruence|reflexivity].
  - change ((y :: s) ++ [x]) with (y :: (s ++ [x])).
    destruct (ascii_dec y c) as [->|Hy].
    + rewrite !split_cons_sep, IH.
      destruct (split c s) eqn:E; [now apply split_not_nil in E|reflexivity].
    + rewrite !split_cons_other, IH by assumption.
      destruct (split c s) as [|p [|q ps]] eqn:E;
        [now apply split_not_nil in E|reflexivity|reflexivity].
Qed.

(** Splitting the mirror image gives the mirror image of the parts. *)
Lemma split_rev (c : ascii) (s : str) :
  split c (rev s) = rev (map (@rev ascii) (split c s)).
Proof.
  induction s as [|x s IH]; [reflexivity|].
  simpl rev at 1. destruct (ascii_dec x c) as [->|Hne].
  - rewrite split_snoc_sep, split_cons_sep, IH. reflexivity.
  - rewrite split_snoc_other, split_cons_other, IH by assumption.
    destruct (split c s) as [|p ps] eqn:E; [now apply split_not_nil in E|].
    simpl. rewrite removelast_app, last_last by discriminate.
    simpl. now rewrite app_nil_r.
Qed.

End PyFacts.

(** ** Rows *)

Section RowFacts.

Lemma isspace_not_pipe (c : ascii) : isspace c = true -> c <> PIPE.
Proof. intros E ->. discriminate. Qed.

Lemma fields_lstrip (l : str) :
  fields (lstrip l) = lstrip (hd [] (fields l)) :: tl (fields l).
Proof.
  unfold fields. induction l as [|x l IH]; [reflexivity|].
  destruct (isspace x) eqn:E.
  - rewrite (split_cons_other l (isspace_not_pipe E)).
    cbn [lstrip hd tl]. rewrite E. exact IH.
  - cbn [lstrip]. rewrite E. destruct (ascii_dec x PIPE) as [->|Hne].
    + rewrite split_cons_sep. reflexivity.
    + rewrite (split_cons_other l Hne). cbn [lstrip hd tl]. now rewrite E.
Qed.

Lemma fields_rstrip (l : str) :
  fields (rstrip l) =
  removelast (fields l) ++ [rstrip (last (fields l) [])].
Proof.
  unfold fields.
  replace (rstrip l) with (rev (lstrip (rev l))) by reflexivity.
  rewrite split_rev. fold (fields (lstrip (rev l))).
  rewrite fields_lstrip. unfold fields. rewrite split_rev.
  destruct (split PIPE l) as [|p ps] eqn:E using rev_ind;
    [now apply split_not_nil in E|].
  rewrite map_app, rev_app_distr. simpl.
  rewrite lstrip_rev, !rev_involutive, map_rev, rev_involutive, map_map.
  rewrite removelast_last, last_last. f_equal.
  rewrite <- (map_id ps) at 2. apply map_ext. intros a. apply rev_involutive.
Qed.

Lemma fields_length_lstrip (l : str) :
  List.length (fields (lstrip l)) = List.length (fields l).
Proof.
  rewrite fields_lstrip. unfold fields.
  destruct (split PIPE l) eqn:E; [now apply split_not_nil in E|reflexivity].
Qed.

Lemma fields_length_rstrip (l : str) :
  List.length (fields (rstrip l)) = List.length (fields l).
Proof.
  rewrite fields_rstrip. unfold fields.
  destruct (split PIPE l) as [|p ps] eqn:E using rev_ind;
    [now apply split_not_nil in E|].
  rewrite removelast_last, !length_app. reflexivity.
Qed.

Lemma field_lstrip (n : nat) (l : str) : field n (lstrip l) = field n l.
Proof.
  unfold field. rewrite fields_lstrip. unfold fields.
  destruct (split PIPE l) as [|p ps] eqn:E; [now apply split_not_nil in E|].
  destruct n; simpl; [apply strip_lstrip|reflexivity].
Qed.

Lemma field_rstrip (n : nat) (l : str) : field n (rstrip l) = field n l.
Proof.
  unfold field. rewrite fields_rstrip. unfold fields.
  destruct (split PIPE l) as [|p ps] eqn:E using rev_ind;
    [now apply split_not_nil in E|].
  rewrite removelast_last, last_last.
  destruct (Nat.lt_trichotomy n (List.length ps)) as [H|[H|H]].
  - now rewrite !app_nth1 by assumption.
  - subst n. rewrite !nth_middle. apply strip_rstrip.
  - rewrite !nth_overflow; [reflexivity| |]; rewrite length_app; simpl; lia.
Qed.

Lemma blank_lstrip (l : str) : blank (lstrip l) = blank l.
Proof. unfold blank. now rewrite strip_lstrip. Qed.

Lemma blank_rstrip (l : str) : blank (rstrip l) = blank l.
Proof. unfold blank. now rewrite strip_rstrip. Qed.

End RowFacts.

(** *** Keeping rows of a trimmed text *)

Section Kept.

Variable A : Type.

Lemma kept_rev (keep : str -> bool) (mk : str -> A) (ls : list str) :
  kept keep mk (rev ls) = rev (kept keep mk ls).
Proof.
  unfold kept. induction ls as [|x ls IH]; [reflexivity|].
  simpl. rewrite filter_app, map_app, IH. simpl.
  destruct (keep x); simpl; [reflexivity|now rewrite app_nil_r].
Qed.

Lemma kept_map (keep : str -> bool) (mk : str -> A) (f : str -> str)
    (ls : list str) :
  kept keep mk (map f ls) = kept (fun l => keep (f l)) (fun l => mk (f l)) ls.
Proof.
  unfold kept. induction ls as [|x ls IH]; [reflexivity|].
  simpl. destruct (keep (f x)); simpl; now rewrite IH.
Qed.

Lemma kept_lines_lstrip (keep : str -> bool) (mk : str -> A) :
  keep [] = false ->
  (forall l, keep (lstrip l) = keep l) ->
  (forall l, mk (lstrip l) = mk l) ->
  forall text, kept keep mk (lines (lstrip text)) = kept keep mk (lines text).
Proof.
  intros keep_nil keep_lstrip mk_lstrip text.
  unfold lines. induction text as [|x t IH]; [reflexivity|].
  simpl lstrip. destruct (isspace x) eqn:E; [|reflexivity].
  rewrite IH. destruct (ascii_dec x LF) as [->|Hne].
  - rewrite split_cons_sep. unfold kept. simpl. now rewrite keep_nil.
  - rewrite split_cons_other by assumption.
    destruct (split LF t) as [|p ps] eqn:Ep; [now apply split_not_nil in Ep|].
    unfold kept. simpl.
    assert (Hk : keep (x :: p) = keep p).
    { rewrite <- (keep_lstrip (x :: p)). simpl. rewrite E. apply keep_lstrip. }
    assert (Hm : mk (x :: p) = mk p).
    { rewrite <- (mk_lstrip (x :: p)). simpl. rewrite E. apply mk_lstrip. }
    rewrite Hk. destruct (keep p); simpl; [now rewrite Hm|reflexivity].
Qed.

Lemma kept_lines_rstrip (keep : str -> bool) (mk : str -> A) :
  keep [] = false ->
  (forall l, keep (rstrip l) = keep l) ->
  (forall l, mk (rstrip l) = mk l) ->
  forall text, kept keep mk (lines (rstrip text)) = kept keep mk (lines text).
Proof.
  intros keep_nil keep_rstrip mk_rstrip text. unfold lines.
  replace (rstrip text) with (rev (lstrip (rev text))) by reflexivity.
  assert (Hback : split LF text = rev (map (@rev ascii) (split LF (rev text))))
    by now rewrite <- split_rev, rev_involutive.
  rewrite Hback, split_rev, !kept_rev, !kept_map. f_equal.
  apply kept_lines_lstrip.
  - exact keep_nil.
  - intros l. now rewrite <- rstrip_rev, keep_rstrip.
  - intros l. now rewrite <- rstrip_rev, mk_rstrip.
Qed.

(** The rows kept from the trimmed text are the rows kept from the text. *)
Lemma kept_lines_strip (keep : str -> bool) (mk : str -> A) :
  keep [] = false ->
  (forall l, keep (lstrip l) = keep l) ->
  (forall l, mk (lstrip l) = mk l) ->
  (forall l, keep (rstrip l) = keep l) ->
  (forall l, mk (rstrip l) = mk l) ->
  forall text, kept keep mk (lines (strip text)) = kept keep mk (lines text).
Proof.
  intros Hn Hkl Hml Hkr Hmr text. unfold strip.
  rewrite kept_lines_rstrip by assumption.
  now apply kept_lines_lstrip.
Qed.


(** A loop that appends [mk line] for the lines [keep] accepts builds
    [kept]. *)
Lemma fold_left_kept (keep : str -> bool) (mk : str -> A)
    (step : list A -> str -> list A) :
  (forall acc l, step acc l = acc ++ if keep l then [mk l] else []) ->
  forall ls acc, fold_left step ls acc = acc ++ kept keep mk ls.
Proof.
  intros Hstep ls. unfold kept.
  induction ls as [|l ls IH]; intros acc; simpl.
  - now rewrite app_nil_r.
  - rewrite IH, Hstep. destruct (keep l); simpl.
    + now rewrite <- app_assoc.
    + now rewrite app_nil_r.
Qed.

End Kept.


(** ** The loaders *)

Section Loaders.

Lemma field_beyond (n : nat) (l : str) :
  List.length (fields l) <= n -> field n l = [].
Proof. intros H. unfold field. now rewrite nth_overflow. Qed.

Lemma blank_nil : blank [] = true.
Proof. reflexivity. Qed.

Lemma tg_parse_line (acc : list Telegram.user) (l : str) :
  Telegram.parse_line acc l =
  acc ++ if Telegram.well_formed l then [Telegram.record_of l] else [].
Proof.
  unfold Telegram.parse_line, Telegram.well_formed, Telegram.record_of.
  fold (blank l) (fields l). fold (field 0 l) (field 1 l) (field 2 l).
  destruct (blank l); cbn [negb andb]; [now rewrite app_nil_r|].
  destruct (2 <=? List.length (fields l)) eqn:E2; cbn [negb andb];
    [|now rewrite app_nil_r].
  destruct (truthy (field 0 l)); [|now rewrite app_nil_r].
  destruct (2 <? List.length (fields l)) eqn:E3; [reflexivity|].
  apply Nat.ltb_ge in E3. now rewrite (field_beyond l E3).
Qed.

Lemma em_parse_line (acc : list Email.user) (l : str) :
  Email.parse_line acc l =
  acc ++ if Email.well_formed l then [Email.record_of l] else [].
Proof.
  unfold Email.parse_line, Email.well_formed, Email.record_of.
  fold (blank l) (fields l). fold (field 0 l) (field 1 l) (field 2 l).
  destruct (blank l); cbn [negb andb]; [now rewrite app_nil_r|].
  destruct (2 <=? List.length (fields l)) eqn:E2; cbn [negb andb];
    [|now rewrite app_nil_r].
  destruct (truthy (field 0 l) && contains (lit "@") (field 0 l));
    [|now rewrite app_nil_r].
  destruct (2 <? List.length (fields l)) eqn:E3; [reflexivity|].
  apply Nat.ltb_ge in E3. now rewrite (field_beyond l E3).
Qed.

Lemma tg_well_formed_lstrip (l : str) :
  Telegram.well_formed (lstrip l) = Telegram.well_formed l.
Proof.
  unfold Telegram.well_formed.
  now rewrite blank_lstrip, fields_length_lstrip, field_lstrip.
Qed.

Lemma tg_well_formed_rstrip (l : str) :
  Telegram.well_formed (rstrip l) = Telegram.well_formed l.
Proof.
  unfold Telegram.well_formed.
  now rewrite blank_rstrip, fields_length_rstrip, field_rstrip.
Qed.

Lemma em_well_formed_lstrip (l : str) :
  Email.well_formed (lstrip l) = Email.well_formed l.
Proof.
  unfold Email.well_formed.
  now rewrite blank_lstrip, fields_length_lstrip, field_lstrip.
Qed.

Lemma em_well_formed_rstrip (l : str) :
  Email.well_formed (rstrip l) = Email.well_formed l.
Proof.
  unfold Email.well_formed.
  now rewrite blank_rstrip, fields_length_rstrip, field_rstrip.
Qed.

Lemma tg_record_of_lstrip (l : str) :
  Telegram.record_of (lstrip l) = Telegram.record_of l.
Proof. unfold Telegram.record_of. now rewrite !field_lstrip. Qed.

Lemma tg_record_of_rstrip (l : str) :
  Telegram.record_of (rstrip l) = Telegram.record_of l.
Proof. unfold Telegram.record_of. now rewrite !field_rstrip. Qed.

Lemma em_record_of_lstrip (l : str) :
  Email.record_of (lstrip l) = Email.record_of l.
Proof. unfold Email.record_of. now rewrite !field_lstrip. Qed.

Lemma em_record_of_rstrip (l : str) :
  Email.record_of (rstrip l) = Email.record_of l.
Proof. unfold Email.record_of. now rewrite !field_rstrip. Qed.

(** The Telegram loader keeps the well-formed lines of the query output. *)
Lemma tg_load_kept (result : completed_process) :
  Telegram.load result =
  kept Telegram.well_formed Telegram.record_of (lines (stdout result)).
Proof.
  unfold Telegram.load.
  rewrite (fold_left_kept Telegram.well_formed Telegram.record_of
             Telegram.parse_line tg_parse_line).
  simpl. fold (lines (strip (stdout result))).
  apply kept_lines_strip;
    auto using tg_well_formed_lstrip, tg_well_formed_rstrip,
               tg_record_of_lstrip, tg_record_of_rstrip.
Qed.

(** The e-mail loader keeps the well-formed lines of the query output. *)
Lemma em_load_kept (result : completed_process) :
  Email.load result =
  kept Email.well_formed Email.record_of (lines (stdout result)).
Proof.
  unfold Email.load.
  rewrite (fold_left_kept Email.well_formed Email.record_of
             Email.parse_line em_parse_line).
  simpl. fold (lines (strip (stdout result))).
  apply kept_lines_strip;
    auto using em_well_formed_lstrip, em_well_formed_rstrip,
               em_record_of_lstrip, em_record_of_rstrip.
Qed.

Lemma contains_at (s : str) :
  contains (lit "@") s = true <-> In "@"%char s.
Proof.
  induction s as [|x s IH].
  - split; [discriminate|intros []].
  - change (contains (lit "@") (x :: s))
      with ((Ascii.eqb "@"%char x && true) || contains (lit "@") s).
    rewrite orb_true_iff, IH, andb_true_r.
    destruct (Ascii.eqb_spec "@"%char x) as [<-|Hne]; simpl.
    + tauto.
    + split; intros [H|H]; auto; try discriminate; try congruence.
Qed.

End Loaders.

(** ** One turn of the Telegram loop *)

Section TelegramTurn.

Import Telegram.

(** Closes the goal of [tg_attempt_spec] in one branch of the turn. *)
Ltac turn_done :=
  match goal with
  | H : (_, _) = (_, _) |- _ => injection H as <- <-
  end;
  cbn [trace sent blocked failed failures emit count_sent count_blocked
       count_failed];
  eexists; split; [|split]; [ | now rewrite <- ?app_assoc | ];
  first
    [ now left
    | now (right; eexists; reflexivity)
    | now (exists Sent; repeat split)
    | now (exists Blocked; repeat split)
    | now (eexists (Failed _); repeat split)
    | now repeat split ].

(** Whatever the transport answers, a turn makes one call or a call, a
    backoff and one more call, and either books exactly one verdict or
    ends the script with counters and failure list as they were. *)
Lemma tg_attempt_spec (tr : transport) (u : user) (st st' : state)
    (r : option uncaught) :
  attempt tr u st = (st', r) ->
  exists seg,
    one_turn (build_request u) seg
    /\ trace st' = trace st ++ seg
    /\ match r with
       | None => exists v, tg_booked u v st st'
       | Some _ => tg_untouched st st'
       end.
Proof.
  unfold attempt, urlopen, tg_booked, tg_untouched.
  destruct (tr (calls (trace st))) as [|e|msg]; intros H;
    [turn_done| |turn_done].
  unfold on_http_error in H.
  destruct (description e) as [| | |desc| |]; try turn_done.
  destruct (contains (lit "blocked") (lower desc)
            || contains (lit "deactivated") (lower desc)); [turn_done|].
  destruct (contains (lit "Too Many Requests") desc); [|turn_done].
  destruct (plus_half (retry_after e)) as [secs|]; [|turn_done].
  destruct (Qle_bool 0 secs); [|turn_done].
  unfold urlopen in H.
  destruct (tr _) as [|e2|msg2]; turn_done.
Qed.

End TelegramTurn.

(** ** The loops *)

Section Loops.

(** [i < len(users) - 1] holds in every turn but the last. *)
Lemma not_last_turn (i m : nat) :
  (Z.of_nat i <? Z.of_nat (i + S m) - 1)%Z =
  match m with 0 => false | S _ => true end.
Proof.
  destruct m.
  - apply Z.ltb_ge. lia.
  - apply Z.ltb_lt. lia.
Qed.

Lemma tally_cons (p : verdict -> bool) (v : verdict) (vs : list verdict) :
  tally p (v :: vs) = (if p v then 1 else 0) + tally p vs.
Proof. unfold tally. simpl. now destruct (p v). Qed.

Lemma tally_split (vs : list verdict) :
  tally is_Sent vs + tally is_Blocked vs + tally is_Failed vs = List.length vs.
Proof.
  induction vs as [|v vs IH]; [reflexivity|].
  rewrite !tally_cons. destruct v; simpl; lia.
Qed.

Lemma paced_cons {R} (d : Q) (seg : list (event R))
    (segs : list (list (event R))) :
  segs <> [] -> paced d (seg :: segs) = seg ++ Pace d :: paced d segs.
Proof. destruct segs; [congruence|reflexivity]. Qed.

Lemma tg_entries_length (uvs : list (Telegram.user * verdict)) :
  List.length (tg_entries uvs) = tally is_Failed (map snd uvs).
Proof.
  induction uvs as [|[u v] uvs IH]; [reflexivity|].
  unfold tg_entries in *. simpl. rewrite length_app, IH, tally_cons.
  now destruct v.
Qed.

Import Telegram.

(** The counters and the failure list after the loop, by the verdicts of
    the recipients it went through. *)
Lemma tg_loop_verdicts (tr : transport) (n : nat) (us : list user) :
  forall i st st' r,
    loop tr n i us st = (st', r) ->
    exists vs,
      List.length vs <= List.length us
      /\ (r = None -> List.length vs = List.length us)
      /\ sent st' = sent st + tally is_Sent vs
      /\ blocked st' = blocked st + tally is_Blocked vs
      /\ failed st' = failed st + tally is_Failed vs
      /\ failures st' = failures st ++ tg_entries (combine us vs).
Proof.
  induction us as [|u rest IH]; intros i st st' r H; simpl in H.
  - injection H as <- <-. exists []. unfold tally. simpl.
    rewrite app_nil_r. repeat split; auto; lia.
  - destruct (attempt tr u st) as [st1 [exn|]] eqn:E;
      destruct (tg_attempt_spec _ _ _ E) as (seg & _ & _ & Hb).
    + injection H as <- <-. destruct Hb as (Hs & Hb & Hf & Hl).
      exists []. unfold tally. simpl. rewrite app_nil_r.
      repeat split; try lia; try assumption; discriminate.
    + destruct Hb as (v & Hv).
      apply IH in H as (vs & Hle & Hlen & Hs & Hb & Hf & Hl).
      exists (v :: vs). rewrite !tally_cons. simpl.
      assert (Hpace : forall b : bool,
                 sent (if b then emit (Pace (2 # 25)) st1 else st1) = sent st1
                 /\ blocked (if b then emit (Pace (2 # 25)) st1 else st1)
                    = blocked st1
                 /\ failed (if b then emit (Pace (2 # 25)) st1 else st1)
                    = failed st1
                 /\ failures (if b then emit (Pace (2 # 25)) st1 else st1)
                    = failures st1)
        by (intros []; repeat split).
      destruct (Hpace (Z.of_nat i <? Z.of_nat n - 1)%Z) as (P1 & P2 & P3 & P4).
      rewrite P1 in Hs. rewrite P2 in Hb. rewrite P3 in Hf. rewrite P4 in Hl.
      unfold tg_entries in *. simpl.
      destruct v; simpl in *; destruct Hv as (V1 & V2 & V3 & V4);
        rewrite Hs, Hb, Hf, Hl, V1, V2, V3, V4, <- ?app_assoc;
        repeat split; try lia; intros ?; f_equal; auto.
Qed.

(** The trace after the loop: the turns of the recipients it went through,
    with the pause between two of them. *)
Lemma tg_loop_trace (tr : transport) (n : nat) (us : list user) :
  forall i st st' r,
    loop tr n i us st = (st', r) ->
    n = i + List.length us ->
    exists segs,
      List.length segs <= List.length us
      /\ (r = None -> List.length segs = List.length us)
      /\ (us <> [] -> segs <> [])
      /\ Forall2 (fun u seg => one_turn (build_request u) seg)
                 (firstn (List.length segs) us) segs
      /\ trace st' = trace st ++ paced (2 # 25) segs.
Proof.
  induction us as [|u rest IH]; intros i st st' r H Hn; simpl in H.
  - injection H as <- <-. exists []. simpl. rewrite app_nil_r.
    repeat split; auto.
  - destruct (attempt tr u st) as [st1 [exn|]] eqn:E;
      destruct (tg_attempt_spec _ _ _ E) as (seg & Hseg & Htr & _).
    + injection H as <- <-. exists [seg]. simpl.
      repeat split; try lia; try discriminate; auto.
    + subst n. simpl in H. rewrite not_last_turn in H.
      destruct rest as [|u2 rest'].
      * simpl in H. injection H as <- <-. exists [seg]. simpl.
        repeat split; try lia; try discriminate; auto.
      * apply IH in H as (segs & Hle & Hlen & Hne & Hall & Htr');
          [|simpl; lia].
        exists (seg :: segs). rewrite paced_cons by (apply Hne; discriminate).
        cbn [List.length firstn]. repeat split.
        -- simpl in *. lia.
        -- intros Hr. simpl in *. rewrite (Hlen Hr). reflexivity.
        -- discriminate.
        -- constructor; assumption.
        -- rewrite Htr'. cbn [List.length trace emit].
           rewrite Htr, <- !app_assoc. reflexivity.
Qed.

End Loops.

Section EmailLoop.

Import Email.

Variables HTML_EN HTML_ES : string.

Lemma calls_snoc_call {R} (tr : list (event R)) (r : R) :
  calls (tr ++ [Call r]) = S (calls tr).
Proof. unfold calls. rewrite filter_app, length_app. simpl. lia. Qed.

Lemma calls_snoc_pace {R} (tr : list (event R)) (d : Q) :
  calls (tr ++ [Pace d]) = calls tr.
Proof. unfold calls. rewrite filter_app, length_app. simpl. lia. Qed.

(** A turn of the e-mail loop makes one [sendmail] call and books the
    verdict of its outcome. *)
Lemma em_attempt_spec (server : smtp) (u : user) (st : state) :
  let st' := attempt HTML_EN HTML_ES server u st in
  trace st' = trace st ++ [Call (build_envelope HTML_EN HTML_ES u)]
  /\ match sendmail server (calls (trace st)) with
     | Accepted =>
         sent st' = sent st + 1 /\ failed st' = failed st
         /\ failures st' = failures st
     | Raised msg =>
         sent st' = sent st /\ failed st' = failed st + 1
         /\ failures st' =
            failures st ++ [{| address := email u; error := msg |}]
     end.
Proof.
  unfold attempt. destruct (sendmail server (calls (trace st)));
    simpl; repeat split.
Qed.

(** The e-mail loop, by the outcomes of its [sendmail] calls. *)
Lemma em_loop_spec (server : smtp) (n : nat) (us : list user) :
  forall i st,
    n = i + List.length us ->
    let st' := loop HTML_EN HTML_ES server n i us st in
    let vs := map (fun k => em_verdict (sendmail server k))
                  (seq (calls (trace st)) (List.length us)) in
    sent st' = sent st + tally is_Sent vs
    /\ failed st' = failed st + tally is_Failed vs
    /\ failures st' = failures st ++ em_entries (combine us vs)
    /\ trace st' =
       trace st
       ++ paced (1 # 2)
            (map (fun u => [Call (build_envelope HTML_EN HTML_ES u)]) us).
Proof.
  induction us as [|u rest IH]; intros i st Hn; cbn zeta.
  - unfold tally. simpl. rewrite !app_nil_r. repeat split; lia.
  - cbn [loop]. subst n. cbn [List.length] in *. rewrite not_last_turn.
    pose proof (em_attempt_spec server u st) as (Htr & Hv). cbn zeta in *.
    set (st1 := attempt HTML_EN HTML_ES server u st) in *.
    cbn [List.length seq map]. rewrite tally_cons, tally_cons.
    destruct rest as [|u2 rest'].
    + cbn [loop List.length seq map combine paced]. unfold tally. simpl.
      rewrite Htr. unfold em_entries. simpl.
      destruct (sendmail server (calls (trace st))); simpl in *;
        destruct Hv as (V1 & V2 & V3); rewrite V1, V2, V3, ?app_nil_r;
        repeat split; lia.
    + cbn [List.length] in *.
      specialize (IH (S i) (emit (Pace (1 # 2)) st1)).
      cbn zeta in IH.
      destruct IH as (Hs & Hf & Hl & Ht); [simpl; lia|].
      rewrite Hs, Hf, Hl, Ht. cbn [trace emit sent failed failures].
      rewrite Htr, calls_snoc_pace, calls_snoc_call.
      set (vs := map _ (seq (S (calls (trace st))) _)).
      rewrite paced_cons by discriminate.
      unfold em_entries. cbn [combine flat_map fst snd].
      destruct (sendmail server (calls (trace st))); simpl in *;
        destruct Hv as (V1 & V2 & V3); rewrite V1, V2, V3, <- ?app_assoc;
        repeat split; lia.
Qed.

End EmailLoop.

(** ** Recipient loader *)

(** C4: for every query output, both loaders return exactly the records of
    the well-formed lines, in the order of the input: a blank line, a line
    with fewer than two fields and a line whose contact field is empty are
    left out, the e-mail loader also leaves out a contact without an at
    sign, and every other line gives one record; so the output is never
    longer than the input has lines, and has as many records as there are
    well-formed lines. *)
Theorem loader_returns_well_formed_rows (result : completed_process) :
  let rows := lines (stdout result) in
  (forall line,
     Telegram.well_formed line = true <->
     strip line <> [] /\ 2 <= List.length (split PIPE line)
     /\ strip (nth 0 (split PIPE line) []) <> [])
  /\ (forall line,
        Email.well_formed line = true <->
        strip line <> [] /\ 2 <= List.length (split PIPE line)
        /\ strip (nth 0 (split PIPE line) []) <> []
        /\ In "@"%char (strip (nth 0 (split PIPE line) [])))
  /\ Telegram.load result
     = map Telegram.record_of (filter Telegram.well_formed rows)
  /\ Email.load result
     = map Email.record_of (filter Email.well_formed rows)
  /\ List.length (Telegram.load result)
     = List.length (filter Telegram.well_formed rows)
  /\ List.length (Email.load result)
     = List.length (filter Email.well_formed rows)
  /\ List.length (Telegram.load result) <= List.length rows
  /\ List.length (Email.load result) <= List.length rows.
Proof.
  cbn zeta. rewrite tg_load_kept, em_load_kept. unfold kept.
  rewrite !length_map.
  repeat split; try reflexivity; try apply filter_length_le.
  - unfold Telegram.well_formed, blank, field, fields in H.
    rewrite !andb_true_iff, negb_true_iff, negb_false_iff in H.
    intros E. rewrite E in H. now destruct H as [[H _] _].
  - unfold Telegram.well_formed, field, fields in H.
    rewrite !andb_true_iff in H. now apply Nat.leb_le.
  - unfold Telegram.well_formed, field, fields in H.
    rewrite !andb_true_iff in H. intros E. rewrite E in H.
    now destruct H as [_ H].
  - intros (H1 & H2 & H3).
    unfold Telegram.well_formed, blank, field, fields.
    rewrite !andb_true_iff, negb_true_iff, negb_false_iff.
    repeat split.
    + now destruct (strip line).
    + now apply Nat.leb_le.
    + now destruct (strip (nth 0 (split PIPE line) [])).
  - unfold Email.well_formed, blank, field, fields in H.
    rewrite !andb_true_iff, negb_true_iff, negb_false_iff in H.
    intros E. rewrite E in H. now destruct H as [[[H _] _] _].
  - unfold Email.well_formed, field, fields in H.
    rewrite !andb_true_iff in H. now apply Nat.leb_le.
  - unfold Email.well_formed, field, fields in H.
    rewrite !andb_true_iff in H. intros E. rewrite E in H.
    now destruct H as [[_ H] _].
  - unfold Email.well_formed, field, fields in H.
    rewrite !andb_true_iff in H. now apply contains_at.
  - intros (H1 & H2 & H3 & H4).
    unfold Email.well_formed, blank, field, fields.
    rewrite !andb_true_iff, negb_true_iff, negb_false_iff.
    repeat split.
    + now destruct (strip line).
    + now apply Nat.leb_le.
    + now destruct (strip (nth 0 (split PIPE line) [])).
    + now apply contains_at.
Qed.

(** ** Template selection *)

Lemma is_es_true (x : str) : Telegram.is_es x = true <-> x = lit "es".
Proof. apply eqb_eq. Qed.

Lemma is_es_false (x : str) : Telegram.is_es x = false <-> x <> lit "es".
Proof. apply eqb_neq. Qed.

(** The two variants of every constant text differ, so the choice shows. *)
Lemma templates_differ :
  Telegram.MSG_ES <> Telegram.MSG_EN
  /\ Telegram.KEYBOARD_ES <> Telegram.KEYBOARD_EN
  /\ Email.SUBJECT_ES <> Email.SUBJECT_EN
  /\ Email.PLAIN_ES <> Email.PLAIN_EN.
Proof. repeat split; discriminate. Qed.

(** C3: the template is a function of the language code alone.  For the
    code "es" the Telegram script takes the Spanish message and keyboard and
    the e-mail script the Spanish subject, HTML and plain text; for every
    other code, the empty one and unknown ones included, both take the
    English ones. *)
Theorem template_selection (HTML_EN HTML_ES : string) (x : str) :
  (Telegram.message x, Telegram.keyboard x)
  = (Telegram.message x, Telegram.keyboard x)
  /\ Telegram.message (lit "es") = Telegram.MSG_ES
  /\ Telegram.keyboard (lit "es") = Telegram.KEYBOARD_ES
  /\ Email.subject (lit "es") = Email.SUBJECT_ES
  /\ Email.html HTML_EN HTML_ES (lit "es") = HTML_ES
  /\ Email.plain (lit "es") = Email.PLAIN_ES
  /\ (x <> lit "es" ->
      Telegram.message x = Telegram.MSG_EN
      /\ Telegram.keyboard x = Telegram.KEYBOARD_EN
      /\ Email.subject x = Email.SUBJECT_EN
      /\ Email.html HTML_EN HTML_ES x = HTML_EN
      /\ Email.plain x = Email.PLAIN_EN).
Proof.
  repeat split; try reflexivity; apply is_es_false in H;
    unfold Telegram.message, Telegram.keyboard, Email.subject,
      Email.html, Email.plain;
    unfold Telegram.is_es in H; unfold Email.is_es, Telegram.is_es;
    now rewrite H.
Qed.

(** The empty code and an unknown one get the English texts, and the
    request of a recipient carries the texts of the recipient's code. *)
Lemma template_selection_witness :
  ([] <> lit "es" /\ lit "fr" <> lit "es")
  /\ Telegram.message [] = Telegram.MSG_EN
  /\ Telegram.keyboard (lit "fr") = Telegram.KEYBOARD_EN
  /\ Email.html Sample.html_en Sample.html_es (lit "fr") = Sample.html_en.
Proof.
  split; [split; discriminate|].
  split; [|split].
  - apply (template_selection Sample.html_en Sample.html_es []). discriminate.
  - apply (template_selection Sample.html_en Sample.html_es (lit "fr")).
    discriminate.
  - apply (template_selection Sample.html_en Sample.html_es (lit "fr")).
    discriminate.
Defined.

(** ** A query that returns nothing *)

(** C7: when the query gives no readable output (standard output empty or
    blank, whatever the exit status and the error output), both loaders
    return the empty list and signal nothing; the Telegram script then
    makes no call and reports sent 0, blocked 0, failed 0, and the e-mail
    script, its SMTP session opening and closing normally, makes no call and
    reports sent 0, failed 0. *)
Theorem failed_query_gives_no_recipients
    (HTML_EN HTML_ES : string) (result : completed_process)
    (tr : Telegram.transport) (server : Email.smtp) :
  strip (stdout result) = [] ->
  Telegram.load result = []
  /\ Email.load result = []
  /\ Telegram.main result tr
     = ([Telegram.Found 0 0 0; Telegram.Done 0 0 0], Telegram.initial, None)
  /\ (Email.login_error server = None ->
      Email.quit_error server = None ->
      Email.main HTML_EN HTML_ES result server
      = ([Email.Found 0 0 0; Email.Done 0 0], Email.initial, None)).
Proof.
  intros Hblank.
  assert (Ht : Telegram.load result = [])
    by (unfold Telegram.load; now rewrite Hblank).
  assert (He : Email.load result = [])
    by (unfold Email.load; now rewrite Hblank).
  repeat split; try assumption.
  - unfold Telegram.main. now rewrite Ht.
  - intros Hlogin Hquit. unfold Email.main. now rewrite He, Hlogin, Hquit.
Qed.

(** The query fails outright: psql exits with status 1 and writes only to
    its error output. *)
Lemma failed_query_gives_no_recipients_witness :
  let result :=
    {| returncode := 1; stdout := [];
       stderr := lit "psql: error: connection to server failed" |} in
  let server :=
    {| Email.login_error := None;
       Email.sendmail := fun _ => Email.Accepted;
       Email.quit_error := None |} in
  strip (stdout result) = []
  /\ Telegram.main result (fun _ => Telegram.Delivered)
     = ([Telegram.Found 0 0 0; Telegram.Done 0 0 0], Telegram.initial, None)
  /\ Email.main Sample.html_en Sample.html_es result server
     = ([Email.Found 0 0 0; Email.Done 0 0], Email.initial, None).
Proof.
  cbn zeta. split; [reflexivity|].
  split.
  - apply (failed_query_gives_no_recipients Sample.html_en Sample.html_es
             {| returncode := 1; stdout := [];
                stderr := lit "psql: error: connection to server failed" |}
             (fun _ => Telegram.Delivered)
             {| Email.login_error := None;
                Email.sendmail := fun _ => Email.Accepted;
                Email.quit_error := None |}).
    reflexivity.
  - apply (failed_query_gives_no_recipients Sample.html_en Sample.html_es
             {| returncode := 1; stdout := [];
                stderr := lit "psql: error: connection to server failed" |}
             (fun _ => Telegram.Delivered)
             {| Email.login_error := None;
                Email.sendmail := fun _ => Email.Accepted;
                Email.quit_error := None |});
      reflexivity.
Defined.

(** ** Counters and failure list *)

Lemma tg_dispatch_verdicts (tr : Telegram.transport)
    (users : list Telegram.user) :
  let st := fst (Telegram.dispatch tr users) in
  exists vs,
    List.length vs <= List.length users
    /\ (snd (Telegram.dispatch tr users) = None ->
        List.length vs = List.length users)
    /\ Telegram.sent st = tally is_Sent vs
    /\ Telegram.blocked st = tally is_Blocked vs
    /\ Telegram.failed st = tally is_Failed vs
    /\ Telegram.failures st = tg_entries (combine users vs).
Proof.
  cbn zeta. unfold Telegram.dispatch.
  destruct (Telegram.loop tr (List.length users) 0 users Telegram.initial)
    as [st r] eqn:E.
  apply tg_loop_verdicts in E as (vs & Hle & Hlen & Hs & Hb & Hf & Hl).
  exists vs. simpl in *. repeat split; assumption.
Qed.

Lemma em_dispatch_spec (HTML_EN HTML_ES : string) (server : Email.smtp)
    (users : list Email.user) :
  let st := Email.dispatch HTML_EN HTML_ES server users in
  let vs := map (fun k => em_verdict (Email.sendmail server k))
                (seq 0 (List.length users)) in
  Email.sent st = tally is_Sent vs
  /\ Email.failed st = tally is_Failed vs
  /\ Email.failures st = em_entries (combine users vs)
  /\ Email.trace st =
     paced (1 # 2)
       (map (fun u => [Call (Email.build_envelope HTML_EN HTML_ES u)]) users).
Proof.
  cbn zeta. unfold Email.dispatch.
  exact (em_loop_spec HTML_EN HTML_ES server users 0 Email.initial eq_refl).
Qed.

Lemma em_verdict_not_blocked (os : list Email.outcome) :
  tally is_Blocked (map em_verdict os) = 0.
Proof.
  induction os as [|o os IH]; [reflexivity|].
  simpl. rewrite tally_cons, IH. now destruct o.
Qed.

(** C1: after a full run every recipient has exactly one verdict, the
    counters are the numbers of recipients with each verdict, and so
    sent + blocked + failed is the number of recipients; the e-mail script
    has no blocked bucket, and there sent + failed is the number of
    recipients. *)
Theorem every_recipient_counted_once :
  (forall (tr : Telegram.transport) (users : list Telegram.user)
          (st : Telegram.state),
      Telegram.dispatch tr users = (st, None) ->
      (exists vs,
          List.length vs = List.length users
          /\ Telegram.sent st = tally is_Sent vs
          /\ Telegram.blocked st = tally is_Blocked vs
          /\ Telegram.failed st = tally is_Failed vs)
      /\ Telegram.sent st + Telegram.blocked st + Telegram.failed st
         = List.length users)
  /\ (forall (HTML_EN HTML_ES : string) (server : Email.smtp)
             (users : list Email.user),
         let st := Email.dispatch HTML_EN HTML_ES server users in
         (exists vs,
             List.length vs = List.length users
             /\ Email.sent st = tally is_Sent vs
             /\ 0 = tally is_Blocked vs
             /\ Email.failed st = tally is_Failed vs)
         /\ Email.sent st + 0 + Email.failed st = List.length users).
Proof.
  split.
  - intros tr users st H.
    destruct (tg_dispatch_verdicts tr users)
      as (vs & _ & Hlen & Hs & Hb & Hf & _).
    rewrite H in *. simpl in *. specialize (Hlen eq_refl).
    split.
    + exists vs. repeat split; assumption.
    + rewrite Hs, Hb, Hf, tally_split. exact Hlen.
  - intros HTML_EN HTML_ES server users. cbn zeta.
    destruct (em_dispatch_spec HTML_EN HTML_ES server users)
      as (Hs & Hf & _ & _).
    set (vs := map _ (seq 0 (List.length users))) in *.
    assert (Hlen : List.length vs = List.length users)
      by (unfold vs; now rewrite length_map, length_seq).
    assert (Hb : tally is_Blocked vs = 0).
    { unfold vs. rewrite <- (map_map (Email.sendmail server) em_verdict).
      apply em_verdict_not_blocked. }
    split.
    + exists vs. repeat split; auto.
    + pose proof (tally_split vs). lia.
Qed.

(** Three recipients: the first is delivered, the second has blocked the
    bot, the third is rate limited and the retry times out. *)
Lemma every_recipient_counted_once_witness :
  let tr :=
    Sample.script
      [ Telegram.Delivered; Telegram.HTTPError Sample.bot_blocked;
        Telegram.HTTPError Sample.flood_3;
        Telegram.OtherError (lit "timed out") ] in
  let st := fst (Telegram.dispatch tr [Sample.ana; Sample.bob; Sample.cy]) in
  snd (Telegram.dispatch tr [Sample.ana; Sample.bob; Sample.cy]) = None
  /\ (Telegram.sent st, Telegram.blocked st, Telegram.failed st) = (1, 1, 1)
  /\ Telegram.sent st + Telegram.blocked st + Telegram.failed st = 3.
Proof.
  cbn zeta. split; [vm_compute; reflexivity|].
  split; [vm_compute; reflexivity|].
  apply (proj1 every_recipient_counted_once
           (Sample.script
              [ Telegram.Delivered; Telegram.HTTPError Sample.bot_blocked;
                Telegram.HTTPError Sample.flood_3;
                Telegram.OtherError (lit "timed out") ])
           [Sample.ana; Sample.bob; Sample.cy]).
  vm_compute. reflexivity.
Defined.

(** C10: in the Telegram script, whether the run ends or an exception
    stops it, the failure list has as many entries as the failed counter
    says, and it is, in order, one entry with the recipient's contact and
    the reason for each recipient with the verdict Failed, and nothing for
    a recipient that was sent to or blocked; the report prints exactly the
    entries of that list. *)
Theorem failures_list_matches_failed_counter
    (tr : Telegram.transport) (users : list Telegram.user) :
  let st := fst (Telegram.dispatch tr users) in
  List.length (Telegram.failures st) = Telegram.failed st
  /\ (exists vs,
         List.length vs <= List.length users
         /\ Telegram.sent st = tally is_Sent vs
         /\ Telegram.blocked st = tally is_Blocked vs
         /\ Telegram.failed st = tally is_Failed vs
         /\ Telegram.failures st = tg_entries (combine users vs))
  /\ (forall id err,
         In (Telegram.FailedItem id err) (Telegram.report st) <->
         In {| Telegram.tg_id := id; Telegram.error := err |}
            (Telegram.failures st)).
Proof.
  cbn zeta.
  destruct (tg_dispatch_verdicts tr users)
    as (vs & Hle & _ & Hs & Hb & Hf & Hl).
  set (st := fst (Telegram.dispatch tr users)) in *.
  split; [|split].
  - rewrite Hl, Hf, tg_entries_length. f_equal.
    clear - Hle. revert vs Hle.
    induction users as [|u us IH]; intros [|v vs] Hle; simpl in *;
      try reflexivity; try lia.
    f_equal. apply IH. lia.
  - exists vs. repeat split; assumption.
  - intros id err. unfold Telegram.report.
    destruct (Telegram.failures st) as [|f fs] eqn:E.
    + simpl. split; [intros [H|[]]; discriminate|intros []].
    + rewrite <- E. clear E. split.
      * intros [H|[H|H]]; try discriminate.
        apply in_map_iff in H as ([a b] & Hab & Hin).
        simpl in Hab. now injection Hab as -> ->.
      * intros H. right. right.
        apply in_map_iff.
        now exists {| Telegram.tg_id := id; Telegram.error := err |}.
Qed.

(** ** Classification of a failed call *)

Lemma startswith_lower (w s : str) :
  startswith w s = true -> startswith (lower w) (lower s) = true.
Proof.
  revert s. induction w as [|a w IH]; intros [|b s]; simpl; auto.
  rewrite !andb_true_iff. intros [Hab Hws].
  apply Ascii.eqb_eq in Hab. subst b.
  split; [apply Ascii.eqb_refl|now apply IH].
Qed.

(** A text that contains a word contains, in lower case, the word in lower
    case. *)
Lemma contains_lower (w s : str) :
  contains w s = true -> contains (lower w) (lower s) = true.
Proof.
  induction s as [|b s IH].
  - destruct w; [reflexivity|discriminate].
  - cbn [contains lower map]. fold (lower s). fold (lower (b :: s)).
    rewrite !orb_true_iff. intros [H|H].
    + left. now apply (startswith_lower w (b :: s)).
    + right. now apply IH.
Qed.

(** A word whose first letter is not in the text is not in the text. *)
Lemma contains_first_absent (c : ascii) (w s : str) :
  existsb (Ascii.eqb c) s = false -> contains (c :: w) s = false.
Proof.
  induction s as [|b s IH]; [reflexivity|].
  cbn [existsb contains startswith]. rewrite orb_false_iff.
  intros [Hb Hs]. now rewrite Hb, IH.
Qed.

Lemma existsb_digits (c : ascii) (d : Decimal.uint) :
  (nat_of_ascii c <? 48) || (57 <? nat_of_ascii c) = true ->
  existsb (Ascii.eqb c) (lower (digits d)) = false.
Proof.
  intros Hc. induction d; [reflexivity|..];
    change (existsb (Ascii.eqb c) (lower (digits d)) = false) in IHd;
    match goal with
    | |- existsb _ (lower (digits (?D d))) = _ =>
        change (lower (digits (D d)))
          with (hd LF (digits (D Decimal.Nil)) :: lower (digits d))
    end;
    cbn [existsb hd digits lit list_ascii_of_string
         DecimalString.NilEmpty.string_of_uint];
    rewrite IHd, orb_false_r;
    apply Ascii.eqb_neq; intros ->; discriminate.
Qed.

(** The rate-limit answers of the Bot API are rate-limit errors for the
    script, carrying the delay they name. *)
Lemma bot_api_flood_is_rate_limited (n : nat) :
  tg_rate_limited (Sample.flood n) (inject_Z (Z.of_nat n))
  /\ (0 <= inject_Z (Z.of_nat n))%Q.
Proof.
  split.
  - exists (lit "Too Many Requests: retry after " ++ decimal n).
    split; [reflexivity|].
    assert (Habsent : forall c w,
               existsb (Ascii.eqb c)
                       (lit "too many requests: retry after ") = false ->
               (nat_of_ascii c <? 48) || (57 <? nat_of_ascii c) = true ->
               contains (c :: w)
                        (lower (lit "Too Many Requests: retry after "
                                ++ decimal n)) = false).
    { intros c w Hp Hd. apply contains_first_absent.
      unfold lower. rewrite map_app, existsb_app. fold (lower (decimal n)).
      apply orb_false_iff. split; [exact Hp|].
      now apply existsb_digits. }
    repeat split; try reflexivity; now apply Habsent.
  - unfold Qle. simpl. lia.
Qed.

Section Classification.

Import Telegram.

(** C5: when the call fails with an error whose description contains
    "blocked" or "deactivated", the turn ends normally after that one call,
    without retry or pause, the blocked counter is one more, and the sent
    counter, the failed counter and the failure list are as before; such a
    recipient alone gives blocked 1, sent 0, failed 0. *)
Theorem unreachable_recipient_is_blocked
    (tr : transport) (u : user) (st : state) (e : http_error) :
  tr (calls (trace st)) = HTTPError e ->
  tg_unreachable e ->
  (exists st',
      attempt tr u st = (st', None)
      /\ trace st' = trace st ++ [Call (build_request u)]
      /\ blocked st' = blocked st + 1
      /\ sent st' = sent st
      /\ failed st' = failed st
      /\ failures st' = failures st)
  /\ (st = initial ->
      exists st',
        dispatch tr [u] = (st', None)
        /\ trace st' = [Call (build_request u)]
        /\ (sent st', blocked st', failed st') = (0, 1, 0)).
Proof.
  intros Hcall (desc & Hdesc & Hword).
  assert (Hlow : contains (lit "blocked") (lower desc)
                 || contains (lit "deactivated") (lower desc) = true).
  { apply orb_true_iff.
    destruct Hword as [H|H]; [left|right];
      now apply (contains_lower _ _) in H. }
  assert (Hturn : attempt tr u st
                  = (count_blocked (emit (Call (build_request u)) st), None)).
  { unfold attempt, urlopen. rewrite Hcall. unfold on_http_error.
    now rewrite Hdesc, Hlow. }
  split.
  - eexists. split; [exact Hturn|]. repeat split.
  - intros ->. eexists. unfold dispatch. cbn [loop List.length].
    rewrite Hturn. cbn. repeat split.
Qed.


(** A deactivated account, alone in the list. *)
Lemma unreachable_recipient_is_blocked_witness :
  let tr := Sample.script [HTTPError Sample.user_deactivated] in
  tr (calls (trace initial)) = HTTPError Sample.user_deactivated
  /\ tg_unreachable Sample.user_deactivated
  /\ exists st',
       dispatch tr [Sample.ana] = (st', None)
       /\ trace st' = [Call (build_request Sample.ana)]
       /\ (sent st', blocked st', failed st') = (0, 1, 0).
Proof.
  cbn zeta.
  assert (Hu : tg_unreachable Sample.user_deactivated).
  { eexists. split; [reflexivity|]. right. reflexivity. }
  split; [reflexivity|]. split; [exact Hu|].
  exact (proj2 (unreachable_recipient_is_blocked
                  (Sample.script [HTTPError Sample.user_deactivated])
                  Sample.ana initial eq_refl Hu) eq_refl).
Defined.


End Classification.

(** ** Pacing *)

Section Pacing.

Variable R : Type.

Lemma one_turn_no_pace (req : R) (seg : list (event R)) :
  one_turn req seg -> filter is_pace seg = [].
Proof. intros [->|[secs ->]]; reflexivity. Qed.

Lemma one_turn_last (req : R) (seg : list (event R)) (x : event R) :
  one_turn req seg -> last seg x = Call req.
Proof. intros [->|[secs ->]]; reflexivity. Qed.

Lemma one_turn_not_nil (req : R) (seg : list (event R)) :
  one_turn req seg -> seg <> [].
Proof. intros [->|[secs ->]]; discriminate. Qed.

(** Between [n] turns there are [n - 1] pauses. *)
Lemma paced_pauses (d : Q) (segs : list (list (event R))) :
  Forall (fun seg => filter is_pace seg = []) segs ->
  filter is_pace (paced d segs) = repeat (Pace d) (List.length segs - 1).
Proof.
  induction 1 as [|seg segs Hseg Hall IH]; [reflexivity|].
  destruct segs as [|seg2 segs]; [exact Hseg|].
  rewrite paced_cons by discriminate.
  rewrite filter_app, Hseg. cbn [app filter is_pace]. rewrite IH.
  simpl. now rewrite Nat.sub_0_r.
Qed.

Lemma last_app_cons {A} (xs : list A) (y : A) (ys : list A) (x : A) :
  last (xs ++ y :: ys) x = last (y :: ys) x.
Proof.
  induction xs as [|a xs IH]; [reflexivity|].
  cbn [app]. rewrite <- IH. now destruct xs.
Qed.

(** The run ends with the end of the last turn. *)
Lemma paced_last (d : Q) (segs : list (list (event R))) (x : event R) :
  Forall (fun seg => seg <> []) segs ->
  last (paced d segs) x = last (last segs []) x.
Proof.
  induction 1 as [|seg segs Hseg Hall IH]; [reflexivity|].
  destruct segs as [|seg2 segs]; [reflexivity|].
  rewrite paced_cons by discriminate.
  change (last (seg :: seg2 :: segs) []) with (last (seg2 :: segs) []).
  rewrite <- IH, last_app_cons.
  destruct (paced d (seg2 :: segs)) eqn:E; [|reflexivity].
  exfalso. inversion Hall as [|? ? Hne _]; subst.
  destruct segs; simpl in E; [now apply Hne|].
  now destruct seg2.
Qed.

End Pacing.

Lemma turns_of_some_request {U R} (f : U -> R) (us : list U)
    (segs : list (list (event R))) :
  Forall2 (fun u seg => one_turn (f u) seg) us segs ->
  Forall (fun seg => exists req, one_turn req seg) segs.
Proof.
  induction 1 as [|u seg us segs H _ IH]; constructor; eauto.
Qed.

(** A trace made of turns with pauses between them has one pause less than
    turns and ends with a call. *)
Lemma paced_turns {R} (d : Q) (segs : list (list (event R))) :
  Forall (fun seg => exists req, one_turn req seg) segs ->
  filter is_pace (paced d segs) = repeat (Pace d) (List.length segs - 1)
  /\ (segs <> [] -> exists req, last (paced d segs) (Pace 0) = Call req).
Proof.
  intros Hall. split.
  - apply paced_pauses. eapply Forall_impl; [|exact Hall].
    intros seg [req H]. exact (one_turn_no_pace H).
  - intros Hne. rewrite paced_last.
    + destruct (@exists_last _ segs Hne) as (init & seg & ->).
      rewrite last_last. apply Forall_app in Hall as [_ Hall].
      inversion Hall as [|? ? [req H] _]; subst.
      exists req. exact (one_turn_last _ H).
    + eapply Forall_impl; [|exact Hall].
      intros seg [req H]. exact (one_turn_not_nil H).
Qed.

(** C8: the turns of the recipients follow each other with one pause
    between two of them, 0.08 seconds in the Telegram script and 0.5
    seconds in the e-mail script, and no pause inside a turn; so a run over
    [n] recipients pauses [n - 1] times, not at all for at most one
    recipient, and the last event of a run is a transport call, not a
    pause.  In the Telegram script this holds of the recipients gone
    through, all of them unless an exception stops the run. *)
Theorem pause_after_every_recipient_but_the_last :
  (forall (tr : Telegram.transport) (users : list Telegram.user),
      let st := fst (Telegram.dispatch tr users) in
      exists segs,
        (snd (Telegram.dispatch tr users) = None ->
         List.length segs = List.length users)
        /\ Forall2 (fun u seg => one_turn (Telegram.build_request u) seg)
                   (firstn (List.length segs) users) segs
        /\ Telegram.trace st = paced (2 # 25) segs
        /\ filter is_pace (Telegram.trace st)
           = repeat (Pace (2 # 25)) (List.length segs - 1)
        /\ (List.length users <= 1 -> filter is_pace (Telegram.trace st) = [])
        /\ (users <> [] ->
            exists req, last (Telegram.trace st) (Pace 0) = Call req))
  /\ (forall (HTML_EN HTML_ES : string) (server : Email.smtp)
             (users : list Email.user),
         let st := Email.dispatch HTML_EN HTML_ES server users in
         Email.trace st
         = paced (1 # 2)
             (map (fun u => [Call (Email.build_envelope HTML_EN HTML_ES u)])
                  users)
         /\ filter is_pace (Email.trace st)
            = repeat (Pace (1 # 2)) (List.length users - 1)
         /\ (List.length users <= 1 -> filter is_pace (Email.trace st) = [])
         /\ (users <> [] ->
             exists env, last (Email.trace st) (Pace 0) = Call env)).
Proof.
  split.
  - intros tr users. cbn zeta. unfold Telegram.dispatch.
    destruct (Telegram.loop tr (List.length users) 0 users Telegram.initial)
      as [st r] eqn:E.
    apply tg_loop_trace in E as (segs & Hle & Hlen & Hne & Hall & Htr);
      [|reflexivity].
    simpl in Htr. cbn [fst snd].
    destruct (paced_turns (2 # 25) (turns_of_some_request _ Hall))
      as (Hp & Hl).
    exists segs. rewrite Htr. repeat split; auto.
    intros H1. rewrite Hp.
    replace (List.length segs - 1) with 0 by lia. reflexivity.
  - intros HTML_EN HTML_ES server users. cbn zeta.
    destruct (em_dispatch_spec HTML_EN HTML_ES server users)
      as (_ & _ & _ & Htr).
    rewrite Htr.
    set (segs := map _ users).
    assert (Hall : Forall (fun seg => exists req, one_turn req seg) segs).
    { unfold segs. apply Forall_forall. intros seg Hin.
      apply in_map_iff in Hin as (u & <- & _). eexists. now left. }
    destruct (paced_turns (1 # 2) Hall) as (Hp & Hl).
    assert (Hlen : List.length segs = List.length users)
      by (unfold segs; apply length_map).
    rewrite Hlen in Hp. repeat split; auto.
    + intros H1. rewrite Hp.
      replace (List.length users - 1) with 0 by lia. reflexivity.
    + intros Hne. apply Hl. unfold segs. now destruct users.
Qed.

(** Two e-mail recipients: one pause, between them; one recipient: none. *)
Lemma pause_after_every_recipient_but_the_last_witness :
  let server :=
    Sample.session [Email.Raised (lit "550 mailbox unavailable")] in
  let run := Email.dispatch Sample.html_en Sample.html_es server in
  let envelope := Email.build_envelope Sample.html_en Sample.html_es in
  Email.trace (run [Sample.eve; Sample.dan])
  = [Call (envelope Sample.eve); Pace (1 # 2); Call (envelope Sample.dan)]
  /\ List.length [Sample.eve] <= 1
  /\ filter is_pace (Email.trace (run [Sample.eve])) = [].
Proof.
  cbn zeta. split; [|split].
  - apply (proj2 pause_after_every_recipient_but_the_last
             Sample.html_en Sample.html_es
             (Sample.session [Email.Raised (lit "550 mailbox unavailable")])
             [Sample.eve; Sample.dan]).
  - apply le_n.
  - apply (proj2 pause_after_every_recipient_but_the_last
             Sample.html_en Sample.html_es
             (Sample.session [Email.Raised (lit "550 mailbox unavailable")])
             [Sample.eve]).
    apply le_n.
Defined.

(** ** The e-mail dispatcher *)

Lemma calls_paced_singletons {R} (d : Q) (rs : list R) :
  filter is_call (paced d (map (fun r => [Call r]) rs)) = map (@Call R) rs.
Proof.
  induction rs as [|r rs IH]; [reflexivity|].
  destruct rs as [|r2 rs]; [reflexivity|].
  cbn [map]. rewrite paced_cons by discriminate.
  cbn [app filter is_call]. f_equal. exact IH.
Qed.

Lemma no_backoff_paced_singletons {R} (d : Q) (rs : list R) (secs : Q) :
  ~ In (Backoff secs) (paced d (map (fun r => [Call r]) rs)).
Proof.
  induction rs as [|r rs IH]; [intros []|].
  destruct rs as [|r2 rs]; [intros [H|[]]; discriminate|].
  cbn [map]. rewrite paced_cons by discriminate.
  intros [H|[H|H]]; try discriminate. now apply IH.
Qed.

Lemma em_entries_length (us : list Email.user) (vs : list verdict) :
  List.length vs = List.length us ->
  List.length (em_entries (combine us vs)) = tally is_Failed vs.
Proof.
  revert vs. induction us as [|u us IH]; intros [|v vs] Hlen;
    try discriminate; [reflexivity|].
  unfold em_entries in *. simpl. rewrite length_app, tally_cons.
  rewrite IH by (simpl in Hlen; lia). now destruct v.
Qed.

(** C9: the e-mail script knows two verdicts only.  A [sendmail] call that
    returns counts as sent; one that raises, whatever it raises, adds one to
    the failed counter and one entry to the failure list; nothing is ever
    blocked, no call is made twice and there is no backoff.  After the run
    sent + failed is the number of recipients, the failure list has one
    entry for each failed recipient, and the calls are, in order, one for
    each recipient. *)
Theorem email_counts_sent_or_failed
    (HTML_EN HTML_ES : string) (server : Email.smtp) :
  (forall (u : Email.user) (st : Email.state) (msg : str),
      Email.sendmail server (calls (Email.trace st)) = Email.Raised msg ->
      let st' := Email.attempt HTML_EN HTML_ES server u st in
      Email.failed st' = Email.failed st + 1
      /\ Email.failures st'
         = Email.failures st
           ++ [{| Email.address := Email.email u; Email.error := msg |}]
      /\ Email.sent st' = Email.sent st
      /\ calls (Email.trace st') = calls (Email.trace st) + 1)
  /\ (forall users : list Email.user,
         let st := Email.dispatch HTML_EN HTML_ES server users in
         let vs := map (fun k => em_verdict (Email.sendmail server k))
                       (seq 0 (List.length users)) in
         Email.sent st = tally is_Sent vs
         /\ Email.failed st = tally is_Failed vs
         /\ tally is_Blocked vs = 0
         /\ Email.failures st = em_entries (combine users vs)
         /\ List.length (Email.failures st) = Email.failed st
         /\ Email.sent st + Email.failed st = List.length users
         /\ filter is_call (Email.trace st)
            = map (fun u => Call (Email.build_envelope HTML_EN HTML_ES u))
                  users
         /\ calls (Email.trace st) = List.length users
         /\ (forall secs, ~ In (Backoff secs) (Email.trace st))).
Proof.
  split.
  - intros u st msg Hraise. cbn zeta.
    pose proof (em_attempt_spec HTML_EN HTML_ES server u st) as (Htr & Hv).
    cbn zeta in *. rewrite Hraise in Hv. destruct Hv as (Hs & Hf & Hl).
    rewrite Htr, calls_snoc_call. repeat split; auto. lia.
  - intros users. cbn zeta.
    destruct (em_dispatch_spec HTML_EN HTML_ES server users)
      as (Hs & Hf & Hl & Htr).
    set (st := Email.dispatch HTML_EN HTML_ES server users) in *.
    set (vs := map _ (seq 0 (List.length users))) in *.
    assert (Hlen : List.length vs = List.length users)
      by (unfold vs; now rewrite length_map, length_seq).
    assert (Hb : tally is_Blocked vs = 0).
    { unfold vs. rewrite <- (map_map (Email.sendmail server) em_verdict).
      apply em_verdict_not_blocked. }
    assert (Hcalls : filter is_call (Email.trace st)
                     = map (fun u => Call (Email.build_envelope
                                             HTML_EN HTML_ES u)) users).
    { rewrite Htr.
      rewrite <- (map_map (Email.build_envelope HTML_EN HTML_ES)
                          (fun r => [Call r])).
      rewrite calls_paced_singletons. apply map_map. }
    pose proof (em_entries_length users vs Hlen) as Hentries.
    repeat split; auto.
    + now rewrite Hl, Hf.
    + pose proof (tally_split vs). lia.
    + unfold calls. now rewrite Hcalls, length_map.
    + intros secs. rewrite Htr.
      rewrite <- (map_map (Email.build_envelope HTML_EN HTML_ES)
                          (fun r => [Call r])).
      apply no_backoff_paced_singletons.
Qed.

(** Two recipients; the server refuses the first. *)
Lemma email_counts_sent_or_failed_witness :
  let server :=
    Sample.session [Email.Raised (lit "550 mailbox unavailable")] in
  let st' :=
    Email.attempt Sample.html_en Sample.html_es server Sample.eve
      Email.initial in
  Email.sendmail server (calls (Email.trace Email.initial))
  = Email.Raised (lit "550 mailbox unavailable")
  /\ Email.failed st' = 1
  /\ Email.failures st'
     = [{| Email.address := lit "eve@example.org";
           Email.error := lit "550 mailbox unavailable" |}]
  /\ Email.sent st' = 0
  /\ calls (Email.trace st') = 1.
Proof.
  cbn zeta. split; [reflexivity|].
  exact (proj1 (email_counts_sent_or_failed Sample.html_en Sample.html_es
                  (Sample.session
                     [Email.Raised (lit "550 mailbox unavailable")]))
               Sample.eve Email.initial (lit "550 mailbox unavailable")
               eq_refl).
Defined.

(** ** Failures and the rest of the batch *)

Section Batch.

Import Telegram.

(** With error bodies as the Bot API sends them, no turn raises. *)
Lemma tg_attempt_completes (tr : transport) (u : user) (st : state) :
  (forall k e, tr k = HTTPError e -> tg_expected e) ->
  snd (attempt tr u st) = None.
Proof.
  intros Hexp. unfold attempt, urlopen.
  destruct (tr (calls (trace st))) as [|e|msg] eqn:E; try reflexivity.
  destruct (Hexp _ _ E) as (desc & Hdesc & Hrate).
  unfold on_http_error. rewrite Hdesc.
  destruct (contains (lit "blocked") (lower desc)
            || contains (lit "deactivated") (lower desc)); [reflexivity|].
  destruct (contains (lit "Too Many Requests") desc); [|reflexivity].
  destruct (Hrate eq_refl eq_refl) as (secs & -> & Hpos).
  apply Qle_bool_iff in Hpos. rewrite Hpos. unfold urlopen.
  destruct (tr (calls (trace (emit (Backoff secs) _)))); reflexivity.
Qed.

Lemma tg_loop_completes (tr : transport) (n : nat) (us : list user) :
  (forall k e, tr k = HTTPError e -> tg_expected e) ->
  forall i st, snd (loop tr n i us st) = None.
Proof.
  intros Hexp. induction us as [|u rest IH]; intros i st; [reflexivity|].
  cbn [loop]. pose proof (@tg_attempt_completes tr u st Hexp) as H.
  destruct (attempt tr u st) as [st1 [exn|]]; [discriminate|]. apply IH.
Qed.

(** With error bodies as the Bot API sends them, the Telegram run goes
    through the whole list: every recipient has a turn of one call or of a
    call, a backoff and a second call, and a verdict. *)
Lemma tg_batch_survives_expected_failures (tr : transport)
    (users : list user) :
  (forall k e, tr k = HTTPError e -> tg_expected e) ->
  exists st segs,
    dispatch tr users = (st, None)
    /\ Forall2 (fun u seg => one_turn (build_request u) seg) users segs
    /\ trace st = paced (2 # 25) segs
    /\ sent st + blocked st + failed st = List.length users.
Proof.
  intros Hexp.
  pose proof (@tg_loop_completes tr (List.length users) users Hexp 0 initial)
    as Hr.
  fold (dispatch tr users) in Hr.
  destruct (dispatch tr users) as [st r] eqn:E. simpl in Hr. subst r.
  pose proof E as E'. unfold dispatch in E'.
  apply tg_loop_trace in E' as (segs & _ & Hlen & _ & Hall & Htr);
    [|reflexivity].
  rewrite (Hlen eq_refl), firstn_all in Hall.
  exists st, segs. repeat split; auto.
  pose proof (tg_dispatch_verdicts tr users)
    as (vs & _ & Hl & Hs & Hb & Hf & _).
  rewrite E in *. simpl in *.
  rewrite Hs, Hb, Hf, tally_split. now apply Hl.
Qed.

(** The answers of the Bot API and a gateway's page are error bodies of
    the expected kind. *)
Lemma usual_answers_expected (n : nat) :
  tg_expected Sample.bot_blocked
  /\ tg_expected Sample.user_deactivated
  /\ tg_expected Sample.bad_gateway
  /\ tg_expected (Sample.flood n).
Proof.
  repeat split.
  - eexists. split; [reflexivity|]. discriminate.
  - eexists. split; [reflexivity|]. discriminate.
  - eexists. split; [reflexivity|]. discriminate.
  - eexists. split; [reflexivity|]. intros _ _.
    exists (inject_Z (Z.of_nat n) + (1 # 2))%Q. split; [reflexivity|].
    unfold Qle. simpl. lia.
Qed.

(** C6, where the Telegram script departs from it: an HTTP error whose JSON
    body has a null description makes the handler itself raise (lines
    160-164), no clause of the [try] catches that, and the script stops on
    the first recipient.  The second recipient gets no call, nothing is
    counted, and the final report is not printed. *)
Theorem null_description_stops_the_batch :
  let tr := Sample.script [HTTPError Sample.null_description] in
  let users := [Sample.ana; Sample.bob] in
  let result :=
    {| returncode := 0; stdout := lit "1|es|ana
2|en|bob
"; stderr := [] |} in
  load result = users
  /\ description Sample.null_description = JNull
  /\ snd (dispatch tr users) = Some AttributeError
  /\ trace (fst (dispatch tr users)) = [Call (build_request Sample.ana)]
  /\ (sent (fst (dispatch tr users)), blocked (fst (dispatch tr users)),
      failed (fst (dispatch tr users))) = (0, 0, 0)
  /\ main result tr
     = ([Found 2 1 1], fst (dispatch tr users), Some AttributeError).
Proof. cbn zeta. repeat split; vm_compute; reflexivity. Qed.

(** The same slip on a rate-limit body whose retry delay is not a number:
    [retry_after + 0.5] raises inside the handler. *)
Lemma text_retry_after_stops_the_batch :
  let tr := Sample.script [HTTPError Sample.flood_text] in
  snd (dispatch tr [Sample.ana; Sample.bob]) = Some TypeError
  /\ trace (fst (dispatch tr [Sample.ana; Sample.bob]))
     = [Call (build_request Sample.ana)].
Proof. cbn zeta. split; vm_compute; reflexivity. Qed.

End Batch.

(** ** Scenarios of the specification *)

Section Scenarios.

Import Telegram.

(** Three recipients with the codes "es", "en" and the empty code, all
    calls delivered: sent 3, blocked 0, failed 0; the first gets the Spanish
    texts, the others the English ones. *)
Example scenario_all_delivered :
  let users := [Sample.ana; Sample.bob; Sample.cy] in
  let st := fst (dispatch (Sample.script []) users) in
  (sent st, blocked st, failed st) = (3, 0, 0)
  /\ map (fun r => text (data r)) (map build_request users)
     = [MSG_ES; MSG_EN; MSG_EN]
  /\ trace st
     = [ Call (build_request Sample.ana); Pace (2 # 25);
         Call (build_request Sample.bob); Pace (2 # 25);
         Call (build_request Sample.cy) ].
Proof. cbn zeta. repeat split; vm_compute; reflexivity. Qed.

(** A rate limit of 3 seconds, then the retry is delivered: sent 1,
    failed 0, after a pause of 3.5 seconds. *)
Example scenario_retry_delivered :
  let st :=
    fst (dispatch (Sample.script [HTTPError Sample.flood_3]) [Sample.bob]) in
  (sent st, blocked st, failed st) = (1, 0, 0)
  /\ trace st
     = [ Call (build_request Sample.bob); Backoff (3 + (1 # 2));
         Call (build_request Sample.bob) ].
Proof. cbn zeta. split; vm_compute; reflexivity. Qed.

(** An answer that is not JSON is a plain failure, with the body as the
    reason. *)
Example scenario_bad_gateway :
  let st :=
    fst (dispatch (Sample.script [HTTPError Sample.bad_gateway])
                  [Sample.bob]) in
  (sent st, blocked st, failed st) = (0, 0, 1)
  /\ failures st
     = [{| tg_id := lit "2";
           error := lit "<html><h1>502 Bad Gateway</h1></html>" |}]
  /\ report st
     = [ Done 0 0 1; FailedHeader;
         FailedItem (lit "2") (lit "<html><h1>502 Bad Gateway</h1></html>") ].
Proof. cbn zeta. repeat split; vm_compute; reflexivity. Qed.

(** The loaders on a text with blank lines, a line of one field, an empty
    contact, a contact without an at sign and padded fields. *)
Example scenario_loader :
  let result :=
    {| returncode := 0;
       stdout := lit "
 7 | es | ana | extra

nobody
|en|ghost
eve@example.org|en
";
       stderr := [] |} in
  Telegram.load result
  = [ {| telegram := lit "7"; lang := lit "es"; username := lit "ana" |};
      {| telegram := lit "eve@example.org"; lang := lit "en";
         username := [] |} ]
  /\ Email.load result
     = [ {| Email.email := lit "eve@example.org"; Email.lang := lit "en";
            Email.username := [] |} ].
Proof. cbn zeta. split; vm_compute; reflexivity. Qed.

End Scenarios.

(** * Further properties of the scripts *)

(** ** What the loaders hand on *)

Section LoadedRecords.

Lemma in_lstrip (c : ascii) (s : str) : In c (lstrip s) -> In c s.
Proof.
  induction s as [|x s IH]; [intros []|].
  simpl. destruct (isspace x); [right; now apply IH|intros H; exact H].
Qed.

Lemma in_strip (c : ascii) (s : str) : In c (strip s) -> In c s.
Proof.
  unfold strip, rstrip. intros H.
  apply in_rev, in_lstrip, in_rev, in_lstrip in H. exact H.
Qed.

(** The parts of a split are made of characters of the text, the separator
    not among them. *)
Lemma in_split_part (c : ascii) (s p : str) (x : ascii) :
  In p (split c s) -> In x p -> In x s /\ x <> c.
Proof.
  revert p. induction s as [|a s IH]; intros p Hp Hx.
  - destruct Hp as [<-|[]]. destruct Hx.
  - destruct (ascii_dec a c) as [->|Hne].
    + rewrite split_cons_sep in Hp. destruct Hp as [<-|Hp]; [destruct Hx|].
      destruct (IH _ Hp Hx). split; [now right|assumption].
    + rewrite (split_cons_other s Hne) in Hp.
      destruct (split c s) as [|q qs] eqn:E; [now apply split_not_nil in E|].
      simpl in Hp. destruct Hp as [<-|Hp].
      * destruct Hx as [<-|Hx]; [split; [now left|assumption]|].
        destruct (IH q (or_introl eq_refl) Hx). split; [now right|assumption].
      * destruct (IH p (or_intror Hp) Hx). split; [now right|assumption].
Qed.

(** A trimmed field of a line of a text has no pipe, no line feed and no
    white space at either end. *)
Lemma field_clean (n : nat) (text line : str) :
  In line (lines text) ->
  strip (field n line) = field n line
  /\ ~ In PIPE (field n line)
  /\ ~ In LF (field n line).
Proof.
  intros Hline. unfold field. split; [apply strip_idem|].
  assert (Hpart : forall x, In x (strip (nth n (fields line) [])) ->
                            x <> PIPE /\ x <> LF).
  { intros x Hx. apply in_strip in Hx.
    destruct (nth_in_or_default n (fields line) []) as [Hin|Hnil];
      [|rewrite Hnil in Hx; destruct Hx].
    destruct (@in_split_part _ _ _ _ Hin Hx) as [Hxl Hpipe].
    split; [exact Hpipe|].
    exact (proj2 (@in_split_part _ _ _ _ Hline Hxl)). }
  split; intros H; destruct (Hpart _ H); congruence.
Qed.

Lemma in_kept {A} (keep : str -> bool) (mk : str -> A) (ls : list str)
    (a : A) :
  In a (kept keep mk ls) <-> exists l, In l ls /\ keep l = true /\ mk l = a.
Proof.
  unfold kept. rewrite in_map_iff. split.
  - intros (l & <- & Hin). apply filter_In in Hin as [Hin Hk]. eauto.
  - intros (l & Hin & Hk & <-). exists l. split; [reflexivity|].
    apply filter_In. auto.
Qed.

Lemma kept_app {A} (keep : str -> bool) (mk : str -> A) (xs ys : list str) :
  kept keep mk (xs ++ ys) = kept keep mk xs ++ kept keep mk ys.
Proof. unfold kept. now rewrite filter_app, map_app. Qed.

Lemma split_app_sep (c : ascii) (a b : str) :
  split c (a ++ c :: b) = split c a ++ split c b.
Proof.
  induction a as [|x a IH].
  - simpl. now rewrite Ascii.eqb_refl.
  - change ((x :: a) ++ c :: b) with (x :: (a ++ c :: b)).
    destruct (ascii_dec x c) as [->|Hne].
    + rewrite !split_cons_sep, IH. reflexivity.
    + rewrite !(split_cons_other _ Hne), IH.
      destruct (split c a) eqn:E; [now apply split_not_nil in E|reflexivity].
Qed.

(** Every record a loader returns has a contact that is not empty (with an
    at sign, for the e-mail loader), and each of its three fields is
    trimmed and free of pipes and line feeds. *)
Theorem loaded_records_are_clean (result : completed_process) :
  (forall u, In u (Telegram.load result) ->
     Telegram.telegram u <> []
     /\ Forall (fun f => strip f = f /\ ~ In PIPE f /\ ~ In LF f)
               [Telegram.telegram u; Telegram.lang u; Telegram.username u])
  /\ (forall u, In u (Email.load result) ->
        In "@"%char (Email.email u)
        /\ Forall (fun f => strip f = f /\ ~ In PIPE f /\ ~ In LF f)
                  [Email.email u; Email.lang u; Email.username u]).
Proof.
  split; intros u Hu.
  - rewrite tg_load_kept in Hu. apply in_kept in Hu as (l & Hl & Hk & <-).
    unfold Telegram.record_of. cbn [Telegram.telegram Telegram.lang
                                    Telegram.username].
    split.
    + unfold Telegram.well_formed in Hk. rewrite !andb_true_iff in Hk.
      destruct Hk as [_ Hk]. intros E. now rewrite E in Hk.
    + repeat constructor; try apply (field_clean _ _ _ Hl).
  - rewrite em_load_kept in Hu. apply in_kept in Hu as (l & Hl & Hk & <-).
    unfold Email.record_of. cbn [Email.email Email.lang Email.username].
    split.
    + unfold Email.well_formed in Hk. rewrite !andb_true_iff in Hk.
      destruct Hk as [_ Hk]. now apply contains_at.
    + repeat constructor; try apply (field_clean _ _ _ Hl).
Qed.

(** Of the first sample output. *)
Lemma loaded_records_are_clean_witness :
  let u := {| Telegram.telegram := lit "9"; Telegram.lang := lit "ES";
              Telegram.username := lit "bo" |} in
  In u (Telegram.load Sample.listing)
  /\ Telegram.telegram u <> []
  /\ Forall (fun f => strip f = f /\ ~ In PIPE f /\ ~ In LF f)
            [Telegram.telegram u; Telegram.lang u; Telegram.username u].
Proof.
  cbn zeta.
  assert (Hin : In {| Telegram.telegram := lit "9"; Telegram.lang := lit "ES";
                      Telegram.username := lit "bo" |}
                   (Telegram.load Sample.listing))
    by (vm_compute; tauto).
  split; [exact Hin|].
  exact (proj1 (loaded_records_are_clean Sample.listing) _ Hin).
Defined.

(** The query output read as two texts joined by a line feed gives the
    records of the first followed by the records of the second: the loaders
    work line by line and keep the order. *)
Theorem loader_reads_line_by_line (r1 r2 result : completed_process) :
  stdout result = stdout r1 ++ LF :: stdout r2 ->
  Telegram.load result = Telegram.load r1 ++ Telegram.load r2
  /\ Email.load result = Email.load r1 ++ Email.load r2.
Proof.
  intros H. rewrite !tg_load_kept, !em_load_kept, H. unfold lines.
  rewrite split_app_sep, !kept_app. split; reflexivity.
Qed.

Lemma loader_reads_line_by_line_witness :
  stdout Sample.both_listings
  = stdout Sample.listing ++ LF :: stdout Sample.more_rows
  /\ Telegram.load Sample.both_listings
     = Telegram.load Sample.listing ++ Telegram.load Sample.more_rows
  /\ Email.load Sample.both_listings
     = Email.load Sample.listing ++ Email.load Sample.more_rows.
Proof.
  split; [reflexivity|].
  exact (loader_reads_line_by_line Sample.listing Sample.more_rows
           Sample.both_listings eq_refl).
Defined.

Lemma em_well_formed_tg (l : str) :
  Email.well_formed l
  = Telegram.well_formed l && contains (lit "@") (field 0 l).
Proof. reflexivity. Qed.

(** The e-mail loader keeps, of the rows the Telegram loader would keep,
    those whose contact has an at sign, with the same three fields. *)
Theorem email_loader_is_filtered_telegram_loader (result : completed_process) :
  map (fun u => (Email.email u, Email.lang u, Email.username u))
      (Email.load result)
  = filter (fun t => contains (lit "@") (fst (fst t)))
      (map (fun u => (Telegram.telegram u, Telegram.lang u,
                      Telegram.username u))
           (Telegram.load result)).
Proof.
  rewrite tg_load_kept, em_load_kept. unfold kept.
  induction (lines (stdout result)) as [|l ls IH]; [reflexivity|].
  cbn [filter]. rewrite em_well_formed_tg.
  destruct (Telegram.well_formed l); cbn [andb map filter].
  - cbn [Telegram.record_of Telegram.telegram fst].
    destruct (contains (lit "@") (field 0 l)); cbn [map]; now rewrite IH.
  - exact IH.
Qed.

(** The announced breakdown splits the recipients in two: the English and
    the Spanish count add up to the number found, and they are the numbers
    of recipients whose message carries the English and the Spanish text
    (the subject, for the e-mail script). *)
Theorem breakdown_partitions_recipients (HTML_EN HTML_ES : string) :
  (forall users : list Telegram.user,
      exists english spanish,
        Telegram.announce users
        = Telegram.Found (List.length users) english spanish
        /\ english + spanish = List.length users
        /\ spanish
           = List.length
               (filter (fun u =>
                          String.eqb
                            (Telegram.text
                               (Telegram.data (Telegram.build_request u)))
                            Telegram.MSG_ES) users)
        /\ english
           = List.length
               (filter (fun u =>
                          String.eqb
                            (Telegram.text
                               (Telegram.data (Telegram.build_request u)))
                            Telegram.MSG_EN) users))
  /\ (forall users : list Email.user,
         exists english spanish,
           Email.announce users
           = Email.Found (List.length users) english spanish
           /\ english + spanish = List.length users
           /\ spanish
              = List.length
                  (filter (fun u =>
                             String.eqb
                               (Email.Subject
                                  (Email.build_message HTML_EN HTML_ES u))
                               Email.SUBJECT_ES) users)
           /\ english
              = List.length
                  (filter (fun u =>
                             String.eqb
                               (Email.Subject
                                  (Email.build_message HTML_EN HTML_ES u))
                               Email.SUBJECT_EN) users)).
Proof.
  split; intros users; do 2 eexists; (split; [reflexivity|]); split.
  - rewrite Nat.add_comm.
    apply (filter_length (fun u => Telegram.is_es (Telegram.lang u))).
  - split; f_equal; apply filter_ext; intros u;
      cbn [Telegram.build_request Telegram.data Telegram.text];
      unfold Telegram.message; destruct (Telegram.is_es (Telegram.lang u));
      vm_compute; reflexivity.
  - rewrite Nat.add_comm.
    apply (filter_length (fun u => Email.is_es (Email.lang u))).
  - split; f_equal; apply filter_ext; intros u;
      cbn [Email.build_message Email.Subject];
      unfold Email.subject; destruct (Email.is_es (Email.lang u));
      vm_compute; reflexivity.
Qed.

End LoadedRecords.

(** ** How a failed call is classified *)

Section MoreClassification.

Import Telegram.

Lemma dict_get_absent (fields : list (str * json)) (key : str) (d : json) :
  (forall v, ~ In (key, v) fields) -> dict_get fields key d = d.
Proof.
  induction fields as [|[k v] rest IH]; intros Habs; [reflexivity|].
  cbn [dict_get]. destruct (eqb k key) eqn:E.
  - apply eqb_eq in E. subst k. exfalso. apply (Habs v). now left.
  - apply IH. intros w Hw. apply (Habs w). now right.
Qed.


(** The test for an unreachable recipient ignores letter case and comes
    before the rate-limit test: a description that has "blocked" or
    "deactivated" in any mix of cases is booked as blocked after the one
    call, whatever else it says and whatever retry delay the body names. *)
Theorem unreachable_test_ignores_case_and_comes_first
    (tr : transport) (u : user) (st : state) (e : http_error) (desc : str) :
  tr (calls (trace st)) = HTTPError e ->
  description e = JStr desc ->
  contains (lit "blocked") (lower desc) = true
  \/ contains (lit "deactivated") (lower desc) = true ->
  attempt tr u st
  = (count_blocked (emit (Call (build_request u)) st), None).
Proof.
  intros Hcall Hdesc Hword.
  unfold attempt, urlopen. rewrite Hcall. unfold on_http_error.
  rewrite Hdesc.
  destruct Hword as [-> | ->]; [reflexivity|].
  now rewrite orb_true_r.
Qed.

(** A rate-limit answer with BLOCKED in capitals and a delay of 30. *)
Lemma unreachable_test_ignores_case_and_comes_first_witness :
  let tr := Sample.script [HTTPError Sample.blocked_flood] in
  contains (lit "Too Many Requests")
           (lit "Too Many Requests: sender BLOCKED for flooding") = true
  /\ retry_after Sample.blocked_flood = JNum 30
  /\ attempt tr Sample.ana initial
     = (count_blocked (emit (Call (build_request Sample.ana)) initial), None).
Proof.
  cbn zeta. split; [reflexivity|]. split; [reflexivity|].
  apply (unreachable_test_ignores_case_and_comes_first
           (Sample.script [HTTPError Sample.blocked_flood])
           Sample.ana initial (e := Sample.blocked_flood)
           (desc := lit "Too Many Requests: sender BLOCKED for flooding")).
  - reflexivity.
  - reflexivity.
  - left. reflexivity.
Defined.

(** An HTTP error that is neither of an unreachable recipient nor a rate
    limit is a failure after the one call, with the description as the
    reason; the description is the raw body when the body is not a JSON
    object, and empty when the object has no description. *)
Theorem other_http_error_fails_with_description
    (tr : transport) (u : user) (st : state) (e : http_error) (desc : str) :
  tr (calls (trace st)) = HTTPError e ->
  description e = JStr desc ->
  contains (lit "blocked") (lower desc) = false ->
  contains (lit "deactivated") (lower desc) = false ->
  contains (lit "Too Many Requests") desc = false ->
  attempt tr u st
  = (count_failed (telegram u) desc (emit (Call (build_request u)) st), None)
  /\ ((forall fields, he_json e <> Some (JObj fields)) -> desc = he_body e)
  /\ (forall fields,
         he_json e = Some (JObj fields) ->
         (forall v, ~ In (lit "description", v) fields) ->
         desc = []).
Proof.
  intros Hcall Hdesc Hb Hd Htmr. split; [|split].
  - unfold attempt, urlopen. rewrite Hcall. unfold on_http_error.
    now rewrite Hdesc, Hb, Hd, Htmr.
  - intros Hraw. unfold description in Hdesc.
    destruct (he_json e) as [[| | | | |fields]|]; try congruence.
    now destruct (Hraw fields).
  - intros fields Hjson Habs. unfold description in Hdesc.
    rewrite Hjson, (@dict_get_absent _ _ _ Habs) in Hdesc. congruence.
Qed.

(** A page that is not JSON, and a JSON body without description. *)
Lemma other_http_error_fails_with_description_witness :
  failures (fst (attempt (Sample.script [HTTPError Sample.bad_gateway])
                         Sample.bob initial))
  = [{| tg_id := lit "2";
        error := lit "<html><h1>502 Bad Gateway</h1></html>" |}]
  /\ failures (fst (attempt (Sample.script [HTTPError Sample.no_description])
                            Sample.bob initial))
     = [{| tg_id := lit "2"; error := [] |}].
Proof.
  split.
  - rewrite (proj1 (other_http_error_fails_with_description
                      (Sample.script [HTTPError Sample.bad_gateway])
                      Sample.bob initial (e := Sample.bad_gateway)
                      eq_refl eq_refl eq_refl eq_refl eq_refl)).
    reflexivity.
  - rewrite (proj1 (other_http_error_fails_with_description
                      (Sample.script [HTTPError Sample.no_description])
                      Sample.bob initial (e := Sample.no_description)
                      eq_refl eq_refl eq_refl eq_refl eq_refl)).
    reflexivity.
Defined.


(** A rate-limit error whose body is a JSON object that names no retry
    delay (no "parameters", or "parameters" without "retry_after") makes
    the turn wait 5.5 seconds before the second call. *)
Theorem rate_limit_without_delay_waits_five_and_a_half
    (tr : transport) (u : user) (st : state) (e : http_error)
    (fields parameters : list (str * json)) (desc : str) :
  tr (calls (trace st)) = HTTPError e ->
  he_json e = Some (JObj fields) ->
  dict_get fields (lit "description") (JStr []) = JStr desc ->
  contains (lit "blocked") (lower desc) = false ->
  contains (lit "deactivated") (lower desc) = false ->
  contains (lit "Too Many Requests") desc = true ->
  dict_get fields (lit "parameters") (JObj []) = JObj parameters ->
  (forall v, ~ In (lit "retry_after", v) parameters) ->
  snd (attempt tr u st) = None
  /\ trace (fst (attempt tr u st))
     = trace st
       ++ [ Call (build_request u); Backoff (5 + (1 # 2));
            Call (build_request u) ].
Proof.
  intros Hcall Hjson Hdesc Hb Hd Htmr Hpar Habs.
  unfold attempt, urlopen. rewrite Hcall.
  unfold on_http_error, description, retry_after.
  rewrite Hjson, Hdesc, Hb, Hd, Htmr, Hpar, (@dict_get_absent _ _ _ Habs).
  cbn [orb plus_half]. change (Qle_bool 0 (5 + (1 # 2))) with true.
  cbv iota. unfold urlopen.
  destruct (tr (calls (trace (emit (Backoff (5 + (1 # 2))) _))));
    cbn [fst snd trace emit count_sent count_failed];
    rewrite <- !app_assoc; split; reflexivity.
Qed.

(** A rate-limit answer without "parameters". *)
Lemma rate_limit_without_delay_waits_five_and_a_half_witness :
  let tr := Sample.script [HTTPError Sample.flood_bare] in
  trace (fst (attempt tr Sample.ana initial))
  = [ Call (build_request Sample.ana); Backoff (5 + (1 # 2));
      Call (build_request Sample.ana) ].
Proof.
  cbn zeta.
  refine (proj2 (rate_limit_without_delay_waits_five_and_a_half
                   (Sample.script [HTTPError Sample.flood_bare])
                   Sample.ana initial (e := Sample.flood_bare)
                   (parameters := [])
                   eq_refl eq_refl eq_refl eq_refl eq_refl eq_refl eq_refl
                   _)).
  intros v [].
Defined.

(** A rate-limit error whose body is not a JSON object is recognised by
    the raw body and makes the turn wait 1.5 seconds before the second
    call. *)
Theorem rate_limit_page_waits_one_and_a_half
    (tr : transport) (u : user) (st : state) (e : http_error) :
  tr (calls (trace st)) = HTTPError e ->
  (forall fields, he_json e <> Some (JObj fields)) ->
  contains (lit "blocked") (lower (he_body e)) = false ->
  contains (lit "deactivated") (lower (he_body e)) = false ->
  contains (lit "Too Many Requests") (he_body e) = true ->
  snd (attempt tr u st) = None
  /\ trace (fst (attempt tr u st))
     = trace st
       ++ [ Call (build_request u); Backoff (1 + (1 # 2));
            Call (build_request u) ].
Proof.
  intros Hcall Hraw Hb Hd Htmr.
  assert (Hdesc : description e = JStr (he_body e)).
  { unfold description.
    destruct (he_json e) as [[| | | | |fields]|]; try reflexivity.
    now destruct (Hraw fields). }
  assert (Hretry : retry_after e = JNum 1).
  { unfold retry_after.
    destruct (he_json e) as [[| | | | |fields]|]; try reflexivity.
    now destruct (Hraw fields). }
  unfold attempt, urlopen. rewrite Hcall. unfold on_http_error.
  rewrite Hdesc, Hb, Hd, Htmr, Hretry.
  cbn [orb plus_half]. change (Qle_bool 0 (1 + (1 # 2))) with true.
  cbv iota. unfold urlopen.
  destruct (tr (calls (trace (emit (Backoff (1 + (1 # 2))) _))));
    cbn [fst snd trace emit count_sent count_failed];
    rewrite <- !app_assoc; split; reflexivity.
Qed.

(** A gateway's rate-limit page. *)
Lemma rate_limit_page_waits_one_and_a_half_witness :
  let tr := Sample.script [HTTPError Sample.flood_page] in
  trace (fst (attempt tr Sample.ana initial))
  = [ Call (build_request Sample.ana); Backoff (1 + (1 # 2));
      Call (build_request Sample.ana) ].
Proof.
  cbn zeta.
  refine (proj2 (rate_limit_page_waits_one_and_a_half
                   (Sample.script [HTTPError Sample.flood_page])
                   Sample.ana initial (e := Sample.flood_page)
                   eq_refl _ eq_refl eq_refl eq_refl)).
  intros fields. discriminate.
Defined.

End MoreClassification.

(** ** The calls of a run *)

Section CallsOfRun.

(** Events other than pauses come from the turns. *)
Lemma filter_paced {R} (f : event R -> bool) (d : Q)
    (segs : list (list (event R))) :
  f (Pace d) = false ->
  filter f (paced d segs) = List.concat (map (filter f) segs).
Proof.
  intros Hf. induction segs as [|seg segs IH]; [reflexivity|].
  destruct segs as [|seg2 segs].
  - simpl. now rewrite app_nil_r.
  - rewrite paced_cons by discriminate.
    rewrite filter_app. cbn [filter]. rewrite Hf, IH. reflexivity.
Qed.

Lemma in_paced_call {R} (d : Q) (segs : list (list (event R))) (r : R) :
  In (Call r) (paced d segs) -> exists seg, In seg segs /\ In (Call r) seg.
Proof.
  intros H.
  assert (Hc : In (Call r) (filter is_call (paced d segs)))
    by (apply filter_In; auto).
  rewrite filter_paced in Hc by reflexivity.
  apply in_concat in Hc as (fs & Hfs & Hin).
  apply in_map_iff in Hfs as (seg & <- & Hseg).
  apply filter_In in Hin as [Hin _]. eauto.
Qed.

Import Telegram.

(** The trace of a Telegram run, as the turns of the recipients gone
    through. *)
Lemma tg_dispatch_turns (tr : transport) (users : list user) :
  exists segs,
    List.length segs <= List.length users
    /\ (snd (dispatch tr users) = None ->
        List.length segs = List.length users)
    /\ Forall2 (fun u seg => one_turn (build_request u) seg)
               (firstn (List.length segs) users) segs
    /\ trace (fst (dispatch tr users)) = paced (2 # 25) segs.
Proof.
  unfold dispatch.
  destruct (loop tr (List.length users) 0 users initial) as [st r] eqn:E.
  apply tg_loop_trace in E as (segs & Hle & Hlen & _ & Hall & Htr);
    [|reflexivity].
  exists segs. simpl in *. auto.
Qed.

(** The calls of turns: each turn repeats its request once or twice. *)
Lemma calls_of_turns {U R} (f : U -> R) (us : list U)
    (segs : list (list (event R))) :
  Forall2 (fun u seg => one_turn (f u) seg) us segs ->
  exists reps,
    List.length reps = List.length segs
    /\ Forall (fun k => k = 1 \/ k = 2) reps
    /\ List.concat (map (filter is_call) segs)
       = flat_map (fun ur => repeat (Call (f (fst ur))) (snd ur))
                  (combine us reps)
    /\ List.length (List.concat (map (filter is_call) segs)) = list_sum reps
    /\ List.length (List.concat (map (filter is_backoff) segs))
       = list_sum reps - List.length reps
    /\ List.length reps <= list_sum reps
    /\ list_sum reps <= 2 * List.length reps.
Proof.
  induction 1
    as [|u seg us segs Hseg _ (reps & Hlen & Hall & Hc & Hn & Hb & Hle & Hmax)].
  - exists []. repeat split; auto.
  - destruct Hseg as [->|[secs ->]].
    + exists (1 :: reps).
      cbn [List.length map filter is_call is_backoff List.concat combine
           flat_map fst snd repeat app list_sum].
      change (list_sum (1 :: reps)) with (1 + list_sum reps).
      rewrite Hc, Hb, Hlen. rewrite Hc in Hn.
      repeat split; auto; lia.
    + exists (2 :: reps).
      cbn [List.length map filter is_call is_backoff List.concat combine
           flat_map fst snd repeat app list_sum].
      change (list_sum (2 :: reps)) with (2 + list_sum reps).
      rewrite Hc, Hb, Hlen. rewrite Hc in Hn.
      repeat split; auto; lia.
Qed.

(** In every Telegram run the number of transport calls is the number of
    recipients gone through plus the number of backoffs, and there is at
    most one backoff for each of them: a complete run over [n] recipients
    makes at least [n] and at most [2 n] calls, a run that an exception
    stops at most [2 n]. *)
Theorem calls_are_turns_plus_backoffs (tr : transport) (users : list user) :
  let st := fst (dispatch tr users) in
  let backoffs := List.length (filter is_backoff (trace st)) in
  exists turns,
    turns <= List.length users
    /\ (snd (dispatch tr users) = None -> turns = List.length users)
    /\ calls (trace st) = turns + backoffs
    /\ backoffs <= turns
    /\ calls (trace st) <= 2 * List.length users.
Proof.
  cbn zeta.
  destruct (tg_dispatch_turns tr users) as (segs & Hle & Hlen & Hall & Htr).
  destruct (calls_of_turns _ Hall)
    as (reps & Hr & _ & _ & Hn & Hb & Hsum & Hmax).
  exists (List.length segs). unfold calls.
  rewrite Htr, !filter_paced by reflexivity.
  rewrite Hb, Hn. repeat split; auto; lia.
Qed.

(** The calls of a Telegram run are, in the order of the list, the request
    of each recipient gone through, once or twice in a row; no recipient is
    called before an earlier one is done with, and none is skipped. *)
Theorem calls_follow_the_list (tr : transport) (users : list user) :
  exists reps,
    List.length reps <= List.length users
    /\ (snd (dispatch tr users) = None ->
        List.length reps = List.length users)
    /\ Forall (fun k => k = 1 \/ k = 2) reps
    /\ filter is_call (trace (fst (dispatch tr users)))
       = flat_map (fun ur => repeat (Call (build_request (fst ur))) (snd ur))
                  (combine users reps).
Proof.
  destruct (tg_dispatch_turns tr users) as (segs & Hle & Hlen & Hall & Htr).
  destruct (calls_of_turns _ Hall) as (reps & Hr & Hk & Hc & _).
  exists reps. rewrite Hr. repeat split; auto.
  rewrite Htr, filter_paced, Hc by reflexivity.
  now rewrite <- Hr, <- combine_firstn_r.
Qed.

End CallsOfRun.

(** ** The whole scripts *)

Section WholeScripts.

Lemma in_firstn {A} (n : nat) (l : list A) (a : A) :
  In a (firstn n l) -> In a l.
Proof.
  revert l. induction n as [|n IH]; intros [|x l]; simpl; try tauto.
  intros [H|H]; [now left|right; now apply IH].
Qed.

Lemma forall2_in_r {A B} (P : A -> B -> Prop) (xs : list A) (ys : list B)
    (y : B) :
  Forall2 P xs ys -> In y ys -> exists x, In x xs /\ P x y.
Proof.
  induction 1 as [|x y' xs ys Hxy _ IH]; intros Hin; [destruct Hin|].
  destruct Hin as [->|Hin]; [exists x; split; [now left|assumption]|].
  destruct (IH Hin) as (x' & Hx' & HP). exists x'.
  split; [now right|assumption].
Qed.

Lemma tg_loaded_contact (result : completed_process) (u : Telegram.user) :
  In u (Telegram.load result) -> Telegram.telegram u <> [].
Proof.
  rewrite tg_load_kept. intros Hu. apply in_kept in Hu as (l & _ & Hk & <-).
  unfold Telegram.well_formed in Hk. rewrite !andb_true_iff in Hk.
  destruct Hk as [_ Hk]. cbn [Telegram.record_of Telegram.telegram].
  intros E. now rewrite E in Hk.
Qed.

Lemma em_loaded_contact (result : completed_process) (u : Email.user) :
  In u (Email.load result) -> In "@"%char (Email.email u).
Proof.
  rewrite em_load_kept. intros Hu. apply in_kept in Hu as (l & _ & Hk & <-).
  unfold Email.well_formed in Hk. rewrite !andb_true_iff in Hk.
  destruct Hk as [_ Hk]. now apply contains_at.
Qed.

Lemma tg_main_run (result : completed_process) (tr : Telegram.transport) :
  snd (fst (Telegram.main result tr))
  = fst (Telegram.dispatch tr (Telegram.load result))
  /\ snd (Telegram.main result tr)
     = snd (Telegram.dispatch tr (Telegram.load result)).
Proof.
  unfold Telegram.main.
  now destruct (Telegram.dispatch tr (Telegram.load result)) as [st [exn|]].
Qed.


(** Neither script ever calls its transport for anyone but a recipient the
    loader returned, with the request built for that recipient: the
    Telegram script never posts to an empty chat id, and the e-mail script
    never mails an address without an at sign, and the envelope recipient
    is the address of the To header. *)
Theorem only_loaded_contacts_are_called
    (HTML_EN HTML_ES : string) (result : completed_process) :
  (forall tr req,
      In (Call req) (Telegram.trace (snd (fst (Telegram.main result tr)))) ->
      exists u,
        In u (Telegram.load result)
        /\ req = Telegram.build_request u
        /\ Telegram.chat_id (Telegram.data req) <> [])
  /\ (forall server env,
         In (Call env)
            (Email.trace
               (snd (fst (Email.main HTML_EN HTML_ES result server)))) ->
         exists u,
           In u (Email.load result)
           /\ env = Email.build_envelope HTML_EN HTML_ES u
           /\ In "@"%char (Email.to_addr env)
           /\ Email.To (Email.msg env) = Email.to_addr env).
Proof.
  split.
  - intros tr req Hin. rewrite (proj1 (tg_main_run result tr)) in Hin.
    destruct (tg_dispatch_turns tr (Telegram.load result))
      as (segs & _ & _ & Hall & Htr).
    rewrite Htr in Hin. apply in_paced_call in Hin as (seg & Hseg & Hin).
    destruct (@forall2_in_r _ _ _ _ _ _ Hall Hseg) as (u & Hu & Hturn).
    apply in_firstn in Hu. exists u.
    assert (Hreq : req = Telegram.build_request u).
    { destruct Hturn as [->|[secs ->]]; simpl in Hin;
        repeat destruct Hin as [Hin|Hin]; congruence || contradiction. }
    subst req. repeat split; auto.
    exact (@tg_loaded_contact _ _ Hu).
  - intros server env Hin. unfold Email.main in Hin.
    assert (Hrun : In (Call env)
                      (Email.trace (Email.dispatch HTML_EN HTML_ES server
                                      (Email.load result)))).
    { destruct (Email.login_error server); [destruct Hin|].
      now destruct (Email.quit_error server). }
    destruct (em_dispatch_spec HTML_EN HTML_ES server (Email.load result))
      as (_ & _ & _ & Htr).
    rewrite Htr in Hrun. apply in_paced_call in Hrun as (seg & Hseg & Hc).
    apply in_map_iff in Hseg as (u & <- & Hu).
    destruct Hc as [Hc|[]]. injection Hc as <-.
    exists u. repeat split; auto.
    exact (@em_loaded_contact _ _ Hu).
Qed.

(** The first sample output, every call delivered. *)
Lemma only_loaded_contacts_are_called_witness :
  let tr := Sample.script [] in
  let req :=
    Telegram.build_request
      {| Telegram.telegram := lit "9"; Telegram.lang := lit "ES";
         Telegram.username := lit "bo" |} in
  In (Call req)
     (Telegram.trace (snd (fst (Telegram.main Sample.listing tr))))
  /\ Telegram.chat_id (Telegram.data req) <> [].
Proof.
  cbn zeta.
  assert (Hin : In (Call (Telegram.build_request
                            {| Telegram.telegram := lit "9";
                               Telegram.lang := lit "ES";
                               Telegram.username := lit "bo" |}))
                   (Telegram.trace
                      (snd (fst (Telegram.main Sample.listing
                                               (Sample.script []))))))
    by (vm_compute; tauto).
  split; [exact Hin|].
  destruct (proj1 (only_loaded_contacts_are_called
                     Sample.html_en Sample.html_es Sample.listing)
              _ _ Hin) as (u & _ & _ & Hid).
  exact Hid.
Defined.


Lemma em_report_items (st : Email.state) :
  exists items,
    Email.report st = Email.Done (Email.sent st) (Email.failed st) :: items
    /\ (List.length (Email.failures st) = 0 -> items = [])
    /\ (0 < List.length (Email.failures st) ->
        List.length items = S (List.length (Email.failures st))).
Proof.
  unfold Email.report. destruct (Email.failures st) as [|f fs].
  - exists []. repeat split. simpl. lia.
  - eexists. split; [reflexivity|]. split; [discriminate|].
    intros _. simpl. now rewrite length_map.
Qed.

(** The e-mail run over any list: sent + failed is the number of
    recipients, the failure list has failed-counter many entries, and one
    call was made for each recipient. *)
Lemma em_dispatch_totals (HTML_EN HTML_ES : string) (server : Email.smtp)
    (users : list Email.user) :
  let st := Email.dispatch HTML_EN HTML_ES server users in
  Email.sent st + Email.failed st = List.length users
  /\ List.length (Email.failures st) = Email.failed st
  /\ calls (Email.trace st) = List.length users.
Proof.
  cbn zeta.
  destruct (em_dispatch_spec HTML_EN HTML_ES server users)
    as (Hs & Hf & Hl & Htr).
  set (vs := map _ (seq 0 (List.length users))) in *.
  assert (Hlen : List.length vs = List.length users)
    by (unfold vs; now rewrite length_map, length_seq).
  assert (Hb : tally is_Blocked vs = 0).
  { unfold vs. rewrite <- (map_map (Email.sendmail server) em_verdict).
    apply em_verdict_not_blocked. }
  pose proof (tally_split vs). repeat split.
  - lia.
  - now rewrite Hl, Hf, em_entries_length.
  - unfold calls. rewrite Htr.
    rewrite <- (map_map (Email.build_envelope HTML_EN HTML_ES)
                        (fun r => [Call r])).
    now rewrite calls_paced_singletons, !length_map.
Qed.



(** What the e-mail script prints, and what the SMTP session can take away
    from it.  When the session cannot be opened, no mail is sent and only
    the announcement is printed.  When [quit] raises after the loop, every
    recipient has been called once and counted, but the summary is not
    printed.  Otherwise the summary follows the announcement, its sent and
    failed counts add up to the number announced, and it is followed by a
    header and one line for each failure when there is one. *)
Theorem email_output_and_session
    (HTML_EN HTML_ES : string) (result : completed_process)
    (server : Email.smtp) :
  let out := Email.main HTML_EN HTML_ES result server in
  let n := List.length (Email.load result) in
  let st := snd (fst out) in
  hd Email.FailedHeader (fst (fst out)) = Email.announce (Email.load result)
  /\ (forall exn,
         Email.login_error server = Some exn ->
         out = ([Email.announce (Email.load result)], Email.initial, Some exn))
  /\ (Email.login_error server = None ->
      Email.sent st + Email.failed st = n
      /\ calls (Email.trace st) = n
      /\ snd out = Email.quit_error server
      /\ (Email.quit_error server <> None -> tl (fst (fst out)) = [])
      /\ (Email.quit_error server = None ->
          exists items,
            tl (fst (fst out))
            = Email.Done (Email.sent st) (Email.failed st) :: items
            /\ (Email.failed st = 0 -> items = [])
            /\ (0 < Email.failed st ->
                List.length items = S (Email.failed st)))).
Proof.
  cbn zeta. unfold Email.main.
  pose proof (em_dispatch_totals HTML_EN HTML_ES server (Email.load result))
    as (Hsum & Hcount & Hcalls). cbn zeta in *.
  split; [|split].
  - destruct (Email.login_error server); [reflexivity|].
    now destruct (Email.quit_error server).
  - now intros exn ->.
  - intros ->.
    destruct (Email.quit_error server) as [exn|]; cbn [fst snd tl].
    + repeat split; auto; discriminate.
    + repeat split; auto; try congruence. intros _.
      destruct (em_report_items
                  (Email.dispatch HTML_EN HTML_ES server (Email.load result)))
        as (items & -> & H0 & H1).
      exists items. rewrite Hcount in *. repeat split; auto.
Qed.

(** The session closes with an error after one accepted mail. *)
Lemma email_output_and_session_witness :
  let server :=
    {| Email.login_error := None;
       Email.sendmail := fun _ => Email.Accepted;
       Email.quit_error := Some (lit "Connection unexpectedly closed") |} in
  let out := Email.main Sample.html_en Sample.html_es Sample.listing server in
  Email.login_error server = None
  /\ Email.quit_error server <> None
  /\ Email.sent (snd (fst out)) + Email.failed (snd (fst out)) = 1
  /\ tl (fst (fst out)) = [].
Proof.
  cbn zeta. split; [reflexivity|]. split; [discriminate|].
  pose proof (proj2 (proj2 (email_output_and_session
                Sample.html_en Sample.html_es Sample.listing
                {| Email.login_error := None;
                   Email.sendmail := fun _ => Email.Accepted;
                   Email.quit_error :=
                     Some (lit "Connection unexpectedly closed") |}))
              eq_refl) as (Hsum & _ & _ & Hquit & _).
  split; [exact Hsum|]. apply Hquit. discriminate.
Defined.

End WholeScripts.

(** ** A run without failures *)

Section CleanRun.

Lemma tg_loop_all_delivered (tr : Telegram.transport) (n : nat)
    (us : list Telegram.user) :
  forall i st,
    n = i + List.length us ->
    (forall k, k < calls (Telegram.trace st) + List.length us ->
               tr k = Telegram.Delivered) ->
    let out := Telegram.loop tr n i us st in
    snd out = None
    /\ Telegram.sent (fst out) = Telegram.sent st + List.length us
    /\ Telegram.blocked (fst out) = Telegram.blocked st
    /\ Telegram.failed (fst out) = Telegram.failed st
    /\ Telegram.failures (fst out) = Telegram.failures st
    /\ Telegram.trace (fst out)
       = Telegram.trace st
         ++ paced (2 # 25)
              (map (fun u => [Call (Telegram.build_request u)]) us).
Proof.
  induction us as [|u rest IH]; intros i st Hn Hall; cbn zeta.
  - simpl. rewrite app_nil_r. repeat split; lia.
  - cbn [Telegram.loop]. unfold Telegram.attempt, Telegram.urlopen.
    rewrite Hall by (simpl; lia). subst n. cbn [List.length].
    rewrite not_last_turn.
    destruct rest as [|u2 rest'].
    + simpl. repeat split; lia.
    + cbn [List.length] in *.
      set (st2 := Telegram.emit (Pace (2 # 25))
                    (Telegram.count_sent
                       (Telegram.emit (Call (Telegram.build_request u)) st))).
      specialize (IH (S i) st2). cbn zeta in IH.
      destruct IH as (Hr & Hs & Hb & Hf & Hl & Ht).
      * simpl. lia.
      * intros k Hk. apply Hall. unfold st2 in Hk.
        cbn [Telegram.trace Telegram.emit Telegram.count_sent] in Hk.
        rewrite calls_snoc_pace, calls_snoc_call in Hk.
        cbn [List.length] in *. lia.
      * rewrite Hr, Hs, Hb, Hf, Hl, Ht.
        rewrite (map_cons _ u (u2 :: rest')).
        rewrite (@paced_cons _ (2 # 25) [Call (Telegram.build_request u)]
                   (map (fun u => [Call (Telegram.build_request u)])
                        (u2 :: rest')))
          by discriminate.
        unfold st2. cbn [Telegram.trace Telegram.sent Telegram.blocked
                         Telegram.failed Telegram.failures Telegram.emit
                         Telegram.count_sent List.length map].
        rewrite <- !app_assoc. repeat split; simpl; lia.
Qed.

Lemma map_seq_const {A} (f : nat -> A) (c : A) (a m : nat) :
  (forall k, a <= k < a + m -> f k = c) -> map f (seq a m) = repeat c m.
Proof.
  revert a. induction m as [|m IH]; intros a H; [reflexivity|].
  simpl. rewrite H by lia. f_equal. apply IH. intros k Hk. apply H. lia.
Qed.

(** When the first [n] calls of a run over [n] recipients all succeed, the
    run ends normally with sent [n] and nothing blocked or failed, having
    made exactly one call for each recipient, in order, with a pause
    between two of them; so for the Telegram script and for the e-mail
    script. *)
Theorem all_delivered_run (HTML_EN HTML_ES : string) :
  (forall (tr : Telegram.transport) (users : list Telegram.user),
      (forall k, k < List.length users -> tr k = Telegram.Delivered) ->
      let out := Telegram.dispatch tr users in
      snd out = None
      /\ (Telegram.sent (fst out), Telegram.blocked (fst out),
          Telegram.failed (fst out))
         = (List.length users, 0, 0)
      /\ Telegram.failures (fst out) = []
      /\ Telegram.trace (fst out)
         = paced (2 # 25)
             (map (fun u => [Call (Telegram.build_request u)]) users))
  /\ (forall (server : Email.smtp) (users : list Email.user),
         (forall k, k < List.length users ->
                    Email.sendmail server k = Email.Accepted) ->
         let st := Email.dispatch HTML_EN HTML_ES server users in
         (Email.sent st, Email.failed st) = (List.length users, 0)
         /\ Email.failures st = []).
Proof.
  split.
  - intros tr users Hall. cbn zeta. unfold Telegram.dispatch.
    destruct (@tg_loop_all_delivered tr (List.length users) users 0
                Telegram.initial eq_refl Hall)
      as (Hr & Hs & Hb & Hf & Hl & Ht).
    rewrite Hs, Hb, Hf. repeat split; assumption.
  - intros server users Hall. cbn zeta.
    destruct (em_dispatch_spec HTML_EN HTML_ES server users)
      as (Hs & Hf & Hl & _).
    rewrite (@map_seq_const _
               (fun k => em_verdict (Email.sendmail server k))
               Sent 0 (List.length users)) in *
      by (intros k Hk; rewrite Hall by lia; reflexivity).
    rewrite Hs, Hf, Hl. clear. split.
    + f_equal; unfold tally;
        induction (List.length users) as [|m IH]; simpl; auto.
    + revert users.
      assert (H : forall (us : list Email.user) m,
                 em_entries (combine us (repeat Sent m)) = []).
      { induction us as [|u us IH]; intros [|m]; try reflexivity.
        unfold em_entries in *. simpl. apply IH. }
      intros users. apply H.
Qed.

(** Three recipients and three successes. *)
Lemma all_delivered_run_witness :
  let users := [Sample.ana; Sample.bob; Sample.cy] in
  let out := Telegram.dispatch (Sample.script []) users in
  (forall k, k < List.length users ->
             Sample.script [] k = Telegram.Delivered)
  /\ snd out = None
  /\ (Telegram.sent (fst out), Telegram.blocked (fst out),
      Telegram.failed (fst out)) = (3, 0, 0).
Proof.
  cbn zeta.
  assert (Hall : forall k, k < List.length [Sample.ana; Sample.bob; Sample.cy]
                           -> Sample.script [] k = Telegram.Delivered)
    by (intros [|[|[|k]]] _; reflexivity).
  split; [exact Hall|].
  destruct (proj1 (all_delivered_run Sample.html_en Sample.html_es)
              (Sample.script []) [Sample.ana; Sample.bob; Sample.cy] Hall)
    as (Hr & Hc & _).
  split; [exact Hr|exact Hc].
Defined.

End CleanRun.

(** ** Rows with fewer or more than three fields *)

Section RowWidth.

Lemma in_lstrip_keeps (c : ascii) (s : str) :
  isspace c = false -> In c s -> In c (lstrip s).
Proof.
  intros Hc. induction s as [|x s IH]; [intros []|].
  intros Hin. simpl. destruct (isspace x) eqn:E; [|exact Hin].
  destruct Hin as [->|Hin]; [congruence|now apply IH].
Qed.

Lemma in_strip_keeps (c : ascii) (s : str) :
  isspace c = false -> In c s -> In c (strip s).
Proof.
  intros Hc Hin. unfold strip, rstrip.
  apply -> in_rev. apply in_lstrip_keeps; [assumption|].
  apply -> in_rev. now apply in_lstrip_keeps.
Qed.

Lemma fields_app_pipe (l x : str) :
  fields (l ++ PIPE :: x) = fields l ++ fields x.
Proof. apply split_app_sep. Qed.

Lemma field_app_pipe (n : nat) (l x : str) :
  n < List.length (fields l) -> field n (l ++ PIPE :: x) = field n l.
Proof.
  intros Hn. unfold field. rewrite fields_app_pipe. now rewrite app_nth1.
Qed.

(** A row of two fields gives a record with an empty user name, and in a
    row of three fields or more whatever follows a further pipe is ignored:
    the row is kept or left out as before and gives the same record. *)
Theorem fields_beyond_the_third_are_ignored (l x : str) :
  (List.length (fields l) = 2 ->
   Telegram.username (Telegram.record_of l) = []
   /\ Email.username (Email.record_of l) = [])
  /\ (3 <= List.length (fields l) ->
      Telegram.well_formed (l ++ PIPE :: x) = Telegram.well_formed l
      /\ Telegram.record_of (l ++ PIPE :: x) = Telegram.record_of l
      /\ Email.well_formed (l ++ PIPE :: x) = Email.well_formed l
      /\ Email.record_of (l ++ PIPE :: x) = Email.record_of l).
Proof.
  split.
  - intros H2. cbn [Telegram.record_of Telegram.username Email.record_of
                    Email.username].
    rewrite field_beyond by lia. split; reflexivity.
  - intros H3.
    assert (Hpipe : In PIPE l).
    { unfold fields in H3. rewrite split_length in H3.
      apply (count_occ_In ascii_dec). lia. }
    assert (Hb1 : blank l = false).
    { unfold blank. apply negb_false_iff.
      pose proof (in_strip_keeps PIPE l eq_refl Hpipe) as H.
      now destruct (strip l). }
    assert (Hb2 : blank (l ++ PIPE :: x) = false).
    { unfold blank. apply negb_false_iff.
      assert (H : In PIPE (strip (l ++ PIPE :: x)))
        by (apply in_strip_keeps; [reflexivity|apply in_or_app; now left]).
      now destruct (strip (l ++ PIPE :: x)). }
    assert (Hlen : (2 <=? List.length (fields (l ++ PIPE :: x))) = true).
    { apply Nat.leb_le. rewrite fields_app_pipe, length_app. lia. }
    assert (Hlen' : (2 <=? List.length (fields l)) = true)
      by (apply Nat.leb_le; lia).
    unfold Telegram.well_formed, Email.well_formed, Telegram.record_of,
      Email.record_of.
    rewrite Hb1, Hb2, Hlen, Hlen', !field_app_pipe by lia.
    repeat split.
Qed.

(** A user name with a pipe in it is cut at the pipe. *)
Lemma fields_beyond_the_third_are_ignored_witness :
  3 <= List.length (fields (lit "7|es|ana"))
  /\ Telegram.record_of (lit "7|es|ana" ++ PIPE :: lit "maria")
     = {| Telegram.telegram := lit "7"; Telegram.lang := lit "es";
          Telegram.username := lit "ana" |}.
Proof.
  assert (H3 : 3 <= List.length (fields (lit "7|es|ana")))
    by (vm_compute; lia).
  split; [exact H3|].
  destruct (proj2 (fields_beyond_the_third_are_ignored
                     (lit "7|es|ana") (lit "maria")) H3) as (_ & -> & _).
  reflexivity.
Defined.

End RowWidth.
